(** * go-pod-provisioning: the measured provisioning and single-launch server

    A shallow embedding of [cmd/server/main.go].  The file system, the
    placeholder TPM, the [podman] engine and the shutdown channel are the
    components of an explicit [World]; everything the operating system
    decides (I/O faults, the engine's exit) is read from a [Host] oracle.
    Each handler is a function [Host -> Request -> World -> _ * World]. *)

From Stdlib Require Import ZArith Lia.
From stdpp Require Import base option list strings gmap fin_maps.

Local Open Scope Z_scope.

(** ** Data *)

Abbreviation bytes := (list Byte.byte).

(** A Go [error]: [None] is [nil], [Some msg] an error printing as [msg]. *)
Abbreviation error := (option string).

Definition nl : string := String (Ascii.ascii_of_nat 10) EmptyString.

(** [exec.Command(name, args...)]. *)
Record Cmd := mkCmd { cmd_name : string; cmd_args : list string }.

(** What [cmd.Run] leaves behind: the two capture buffers and its error. *)
Record RunResult := mkRun {
  run_stdout : string;
  run_stderr : string;
  run_err : error
}.

(** The effects that the specification speaks of, in the order they
    happen. *)
Inductive Event :=
| EvRename (src dst : string)      (* os.Rename succeeded *)
| EvMeasure (filepath : string) (pcrIndex : Z)
| EvExec (c : Cmd)                 (* cmd.Run was called *)
| EvCloseShutdown.                 (* close(shutdownCh) *)

Record World := mkWorld {
  fs : gmap string bytes;          (* path -> content *)
  trace : list Event;
  shutdownCh : bool                (* true once the channel is closed *)
}.

(** Everything decided outside of the program. *)
Record Host := mkHost {
  open_fault : string → error;
  write_fault : string → bytes → option (nat * string);
  sync_fault : string → error;
  rename_fault : string → string → error;
  tpm_fault : string → Z → error;
  look_path : string → error;      (* exec.LookPath *)
  run_cmd : Cmd → RunResult
}.

(** A file of a parsed multipart form; [io.ReadAll] on it gives the
    content or fails. *)
Inductive Part :=
| PartData (content : bytes)
| PartBroken (e : string).

Record Request := mkRequest {
  r_method : string;
  r_multipart : option (gmap string Part)   (* None: ParseMultipartForm fails *)
}.

Record Response := mkResponse { status : Z; body : string }.

Definition StatusOK : Z := 200.
Definition StatusCreated : Z := 201.
Definition StatusBadRequest : Z := 400.
Definition StatusNotFound : Z := 404.
Definition StatusMethodNotAllowed : Z := 405.
Definition StatusConflict : Z := 409.
Definition StatusInternalServerError : Z := 500.
Definition MethodPost : string := "POST".

(** [http.Error] prints the message followed by a newline. *)
Definition http_Error (msg : string) (code : Z) : Response :=
  mkResponse code (msg +:+ nl).

Definition WriteHeader (code : Z) : Response := mkResponse code "".

Definition podYamlPath : string := "/tmp/pod.yaml".
Definition envFilePath : string := "/tmp/env".

(** ** Operating-system primitives *)

Definition set_fs (f : gmap string bytes) (w : World) : World :=
  mkWorld f (trace w) (shutdownCh w).

Definition emit (e : Event) (w : World) : World :=
  mkWorld (fs w) (trace w ++ [e]) (shutdownCh w).

(** [os.OpenFile(name, O_WRONLY|O_CREATE|O_EXCL, 0600)]. *)
Definition os_OpenFile_excl (h : Host) (name : string) (w : World) : error * World :=
  match open_fault h name with
  | Some e => (Some e, w)
  | None =>
    match fs w !! name with
    | Some _ => (Some ("open " +:+ name +:+ ": file exists"), w)
    | None => (None, set_fs (<[name := []]> (fs w)) w)
    end
  end.

(** [f.Write(data)]; a failing write may leave a prefix behind. *)
Definition f_Write (h : Host) (name : string) (data : bytes) (w : World) : error * World :=
  let old := default [] (fs w !! name) in
  match write_fault h name data with
  | Some (n, e) => (Some e, set_fs (<[name := old ++ take n data]> (fs w)) w)
  | None => (None, set_fs (<[name := old ++ data]> (fs w)) w)
  end.

Definition f_Sync (h : Host) (name : string) (w : World) : error * World :=
  (sync_fault h name, w).

Definition os_Rename (h : Host) (oldpath newpath : string) (w : World) : error * World :=
  match rename_fault h oldpath newpath with
  | Some e => (Some e, w)
  | None =>
    match fs w !! oldpath with
    | None => (Some ("rename " +:+ oldpath +:+ " " +:+ newpath +:+ ": no such file or directory"), w)
    | Some d => (None, emit (EvRename oldpath newpath)
                         (set_fs (<[newpath := d]> (delete oldpath (fs w))) w))
    end
  end.

(** [os.Remove]; the source discards its result. *)
Definition os_Remove (name : string) (w : World) : World :=
  set_fs (delete name (fs w)) w.

(** ** The functions of main.go *)

(** [measureIntoPCR]: the source is a placeholder that logs and returns
    [nil]; the TPM call that is to replace it is the [tpm_fault] oracle. *)
Definition measureIntoPCR (h : Host) (filepath : string) (pcrIndex : Z) (w : World)
  : error * World :=
  match tpm_fault h filepath pcrIndex with
  | Some e => (Some e, w)
  | None => (None, emit (EvMeasure filepath pcrIndex) w)
  end.

Definition atomicWriteFile (h : Host) (filename : string) (data : bytes) (w : World)
  : error * World :=
  let tempFile := filename +:+ ".tmp" in
  match os_OpenFile_excl h tempFile w with
  | (Some e, w0) => (Some ("failed to create temp file: " +:+ e), w0)
  | (None, w1) =>
    match f_Write h tempFile data w1 with
    | (Some e, w2) =>
      (Some ("failed to write temp file: " +:+ e), os_Remove tempFile w2)
    | (None, w2) =>
      match f_Sync h tempFile w2 with
      | (Some e, w3) =>
        (Some ("failed to sync temp file: " +:+ e), os_Remove tempFile w3)
      | (None, w3) =>
        match os_Rename h tempFile filename w3 with
        | (Some e, w4) =>
          (Some ("failed to rename temp file: " +:+ e), os_Remove tempFile w4)
        | (None, w4) => (None, w4)
        end
      end
    end
  end.

Definition fileExists (filename : string) (w : World) : bool :=
  bool_decide (is_Some (fs w !! filename)).

(** [r.FormFile(name)] on a parsed form. *)
Definition FormFile (form : gmap string Part) (name : string) : option Part :=
  form !! name.

Definition ReadAll (p : Part) : bytes + string :=
  match p with
  | PartData b => inl b
  | PartBroken e => inr e
  end.

(** The second half of the /upload handler (from "Atomic write of
    pod.yaml" on), once both contents have been read. *)
Definition upload_persist (h : Host) (podContent envContent : bytes) (w : World)
  : Response * World :=
  match atomicWriteFile h podYamlPath podContent w with
  | (Some e, w1) =>
    (http_Error ("Failed to write pod.yaml: " +:+ e) StatusInternalServerError, w1)
  | (None, w1) =>
    match measureIntoPCR h podYamlPath 13 w1 with
    | (Some _, w2) =>
      (http_Error "Failed to measure pod.yaml" StatusInternalServerError, w2)
    | (None, w2) =>
      if (0 <? length envContent)%nat then
        match atomicWriteFile h envFilePath envContent w2 with
        | (Some e, w3) =>
          (http_Error ("Failed to write env: " +:+ e) StatusInternalServerError, w3)
        | (None, w3) =>
          match measureIntoPCR h envFilePath 14 w3 with
          | (Some _, w4) =>
            (http_Error "Failed to measure env" StatusInternalServerError, w4)
          | (None, w4) => (WriteHeader StatusCreated, w4)
          end
        end
      else (WriteHeader StatusCreated, w2)
    end
  end.

(** The /upload handler. *)
Definition upload_handler (h : Host) (r : Request) (w : World) : Response * World :=
  if negb (String.eqb (r_method r) MethodPost) then
    (http_Error "Method not allowed" StatusMethodNotAllowed, w)
  else
    match r_multipart r with
    | None => (http_Error "Failed to parse form" StatusBadRequest, w)
    | Some form =>
      match FormFile form "pod.yaml" with
      | None => (http_Error "pod.yaml is required" StatusBadRequest, w)
      | Some podFile =>
        if fileExists podYamlPath w then
          (http_Error "pod.yaml already exists" StatusConflict, w)
        else
          match ReadAll podFile with
          | inr _ => (http_Error "Failed to read pod.yaml" StatusInternalServerError, w)
          | inl podContent =>
            match FormFile form "env" with
            | Some envFile =>
              if fileExists envFilePath w then
                (http_Error "env already exists" StatusConflict, w)
              else
                match ReadAll envFile with
                | inr _ => (http_Error "Failed to read env" StatusInternalServerError, w)
                | inl envContent => upload_persist h podContent envContent w
                end
            | None => upload_persist h podContent [] w
            end
          end
      end
    end.

(** What a client sees of one request. *)
Inductive Outcome :=
| Responded (resp : Response)
| Panicked (msg : string)          (* the handler goroutine panicked *)
| Refused.                         (* nobody is listening any more *)

(** [close(shutdownCh)]: closing a closed channel panics. *)
Definition close_shutdownCh (w : World) : option World :=
  if shutdownCh w then None
  else Some (emit EvCloseShutdown (mkWorld (fs w) (trace w) true)).

(** The command that /start prepares. *)
Definition start_command (w : World) : Cmd :=
  if fileExists envFilePath w then
    mkCmd "sh" ["-c"; ". " +:+ envFilePath +:+ " && podman play kube " +:+ podYamlPath]
  else
    mkCmd "podman" ["play"; "kube"; podYamlPath].

Definition start_failed_msg (res : RunResult) (e : string) : string :=
  "Container start failed:" +:+ nl +:+
  "Stdout: " +:+ run_stdout res +:+ nl +:+
  "Stderr: " +:+ run_stderr res +:+ nl +:+
  "Error: " +:+ e.

(** The /start handler. *)
Definition start_handler (h : Host) (r : Request) (w : World) : Outcome * World :=
  if negb (String.eqb (r_method r) MethodPost) then
    (Responded (http_Error "Method not allowed" StatusMethodNotAllowed), w)
  else if negb (fileExists podYamlPath w) then
    (Responded (http_Error "pod.yaml not found" StatusNotFound), w)
  else
    let cmd := start_command w in
    match look_path h "podman" with
    | Some _ =>
      (Responded (http_Error "podman is not installed" StatusInternalServerError), w)
    | None =>
      let w1 := emit (EvExec cmd) w in
      let res := run_cmd h cmd in
      match run_err res with
      | Some e =>
        (Responded (http_Error (start_failed_msg res e) StatusInternalServerError), w1)
      | None =>
        match close_shutdownCh w1 with
        | None => (Panicked "close of closed channel", w1)
        | Some w2 => (Responded (WriteHeader StatusOK), w2)
        end
      end
    end.

(** ** The process: [main], its server and the shutdown goroutine *)

(** Where the shutdown goroutine stands. *)
Inductive WatcherPc :=
| WRecv        (* blocked in <-shutdownCh *)
| WClose       (* received; about to call server.Close() *)
| WDefer       (* server.Close() returned; wg.Done() is pending *)
| WDone.

(** Where [main] stands. *)
Inductive MainPc :=
| MServe       (* inside server.ListenAndServe() *)
| MWait        (* inside wg.Wait() *)
| MExit        (* returned: "Server shutdown complete" *)
| MFatal.      (* log.Fatalf *)

Record Server := mkServer {
  world : World;
  server_closed : bool;
  wg : nat;
  watcher : WatcherPc;
  main_pc : MainPc
}.

(** The state once [main] has reached [ListenAndServe]: [wg.Add(1)] done,
    the goroutine started, the channel open. *)
Definition boot (w : World) : Server :=
  mkServer (mkWorld (fs w) (trace w) false) false 1 WRecv MServe.

Definition set_world (w : World) (s : Server) : Server :=
  mkServer w (server_closed s) (wg s) (watcher s) (main_pc s).

(** The default mux with the two registered patterns. *)
Definition dispatch (path : string) (h : Host) (r : Request) (w : World)
  : Outcome * World :=
  if String.eqb path "/upload" then
    let '(resp, w') := upload_handler h r w in (Responded resp, w')
  else if String.eqb path "/start" then start_handler h r w
  else (Responded (http_Error "404 page not found" StatusNotFound), w).

(** Is the listener still accepting connections? *)
Definition serving (s : Server) : bool :=
  negb (server_closed s) &&
  match main_pc s with MServe => true | _ => false end.

(** What the scheduler and the outside world can do next. *)
Inductive Action :=
| ARequest (path : string) (h : Host) (r : Request)
| AWatcher                         (* the shutdown goroutine runs one step *)
| AMain                            (* main runs one step *)
| AListenFail.                     (* ListenAndServe returns another error *)

Definition watcher_step (s : Server) : Server :=
  match watcher s with
  | WRecv =>
    if shutdownCh (world s)
    then mkServer (world s) (server_closed s) (wg s) WClose (main_pc s)
    else s
  | WClose => mkServer (world s) true (wg s) WDefer (main_pc s)
  | WDefer => mkServer (world s) (server_closed s) (Nat.pred (wg s)) WDone (main_pc s)
  | WDone => s
  end.

Definition main_step (s : Server) : Server :=
  match main_pc s with
  | MServe =>
    if server_closed s
    then mkServer (world s) (server_closed s) (wg s) (watcher s) MWait
    else s
  | MWait =>
    if Nat.eqb (wg s) 0
    then mkServer (world s) (server_closed s) (wg s) (watcher s) MExit
    else s
  | MExit => s
  | MFatal => s
  end.

Definition act (a : Action) (s : Server) : option Outcome * Server :=
  match a with
  | ARequest path h r =>
    if serving s then
      let '(o, w') := dispatch path h r (world s) in (Some o, set_world w' s)
    else (Some Refused, s)
  | AWatcher => (None, watcher_step s)
  | AMain => (None, main_step s)
  | AListenFail =>
    match main_pc s with
    | MServe =>
      if server_closed s then (None, s)
      else (None, mkServer (world s) (server_closed s) (wg s) (watcher s) MFatal)
    | _ => (None, s)
    end
  end.

(** Running a schedule; the outcomes of its requests, in order. *)
Fixpoint run (sched : list Action) (s : Server) : list Outcome * Server :=
  match sched with
  | [] => ([], s)
  | a :: rest =>
    let '(o, s1) := act a s in
    let '(os, s2) := run rest s1 in
    (match o with Some x => x :: os | None => os end, s2)
  end.

(** ** Handlers as goroutines: one shared-state access per step

    The server runs every request in a goroutine of its own and the
    handlers take no lock, so between any two accesses of the file
    system, the TPM, the engine or the channel another handler may run.
    [handler_step] cuts the two handlers at these accesses; a call of
    [atomicWriteFile] is kept as one step. *)

Inductive Pc :=
(* /upload *)
| UInit (r : Request)
| UCheckEnv (podContent : bytes) (envFile : Part)
| UWritePod (podContent envContent : bytes)
| UMeasurePod (envContent : bytes)
| UWriteEnv (envContent : bytes)
| UMeasureEnv
(* /start *)
| SInit (r : Request)
| SPrepare
| SRun (cmd : Cmd)
| SClose
(* returned *)
| Done (o : Outcome).

Definition reply (resp : Response) : Pc := Done (Responded resp).

Definition handler_step (h : Host) (pc : Pc) (w : World) : Pc * World :=
  match pc with
  | UInit r =>
    if negb (String.eqb (r_method r) MethodPost) then
      (reply (http_Error "Method not allowed" StatusMethodNotAllowed), w)
    else
      match r_multipart r with
      | None => (reply (http_Error "Failed to parse form" StatusBadRequest), w)
      | Some form =>
        match FormFile form "pod.yaml" with
        | None => (reply (http_Error "pod.yaml is required" StatusBadRequest), w)
        | Some podFile =>
          if fileExists podYamlPath w then
            (reply (http_Error "pod.yaml already exists" StatusConflict), w)
          else
            match ReadAll podFile with
            | inr _ =>
              (reply (http_Error "Failed to read pod.yaml" StatusInternalServerError), w)
            | inl podContent =>
              match FormFile form "env" with
              | Some envFile => (UCheckEnv podContent envFile, w)
              | None => (UWritePod podContent [], w)
              end
            end
        end
      end
  | UCheckEnv podContent envFile =>
    if fileExists envFilePath w then
      (reply (http_Error "env already exists" StatusConflict), w)
    else
      match ReadAll envFile with
      | inr _ => (reply (http_Error "Failed to read env" StatusInternalServerError), w)
      | inl envContent => (UWritePod podContent envContent, w)
      end
  | UWritePod podContent envContent =>
    match atomicWriteFile h podYamlPath podContent w with
    | (Some e, w1) =>
      (reply (http_Error ("Failed to write pod.yaml: " +:+ e) StatusInternalServerError), w1)
    | (None, w1) => (UMeasurePod envContent, w1)
    end
  | UMeasurePod envContent =>
    match measureIntoPCR h podYamlPath 13 w with
    | (Some _, w1) =>
      (reply (http_Error "Failed to measure pod.yaml" StatusInternalServerError), w1)
    | (None, w1) =>
      if (0 <? length envContent)%nat then (UWriteEnv envContent, w1)
      else (reply (WriteHeader StatusCreated), w1)
    end
  | UWriteEnv envContent =>
    match atomicWriteFile h envFilePath envContent w with
    | (Some e, w1) =>
      (reply (http_Error ("Failed to write env: " +:+ e) StatusInternalServerError), w1)
    | (None, w1) => (UMeasureEnv, w1)
    end
  | UMeasureEnv =>
    match measureIntoPCR h envFilePath 14 w with
    | (Some _, w1) =>
      (reply (http_Error "Failed to measure env" StatusInternalServerError), w1)
    | (None, w1) => (reply (WriteHeader StatusCreated), w1)
    end
  | SInit r =>
    if negb (String.eqb (r_method r) MethodPost) then
      (reply (http_Error "Method not allowed" StatusMethodNotAllowed), w)
    else if negb (fileExists podYamlPath w) then
      (reply (http_Error "pod.yaml not found" StatusNotFound), w)
    else (SPrepare, w)
  | SPrepare =>
    let cmd := start_command w in
    match look_path h "podman" with
    | Some _ =>
      (reply (http_Error "podman is not installed" StatusInternalServerError), w)
    | None => (SRun cmd, w)
    end
  | SRun cmd =>
    let res := run_cmd h cmd in
    match run_err res with
    | Some e =>
      (reply (http_Error (start_failed_msg res e) StatusInternalServerError),
       emit (EvExec cmd) w)
    | None => (SClose, emit (EvExec cmd) w)
    end
  | SClose =>
    match close_shutdownCh w with
    | None => (Done (Panicked "close of closed channel"), w)
    | Some w1 => (reply (WriteHeader StatusOK), w1)
    end
  | Done o => (Done o, w)
  end.

(** [n] consecutive steps of one goroutine, nothing else running. *)
Fixpoint handler_steps (n : nat) (h : Host) (pc : Pc) (w : World) : Pc * World :=
  match n with
  | O => (pc, w)
  | S n' => let '(pc1, w1) := handler_step h pc w in handler_steps n' h pc1 w1
  end.

(** A pool of handler goroutines over one world. *)
Record Thread := mkThread { t_host : Host; t_pc : Pc }.

Record Pool := mkPool { p_world : World; p_threads : list Thread }.

(** The scheduler lets goroutine [i] take one step. *)
Definition pool_step (i : nat) (p : Pool) : Pool :=
  match p_threads p !! i with
  | None => p
  | Some t =>
    let '(pc', w') := handler_step (t_host t) (t_pc t) (p_world p) in
    mkPool w' (<[i := mkThread (t_host t) pc']> (p_threads p))
  end.

Definition pool_run (sched : list nat) (p : Pool) : Pool :=
  foldl (λ q i, pool_step i q) p sched.

(** ** Vocabulary of the specification *)

Inductive Kind := Spec | EnvBundle.

Definition kind_path (k : Kind) : string :=
  match k with Spec => podYamlPath | EnvBundle => envFilePath end.

Definition kind_part (k : Kind) : string :=
  match k with Spec => "pod.yaml" | EnvBundle => "env" end.

Definition kind_pcr (k : Kind) : Z :=
  match k with Spec => 13 | EnvBundle => 14 end.

Definition tmp_of (filename : string) : string := filename +:+ ".tmp".

(** The durable write of kind [k] and its register extension, as events. *)
Definition persisted (k : Kind) : Event := EvRename (tmp_of (kind_path k)) (kind_path k).
Definition measured (k : Kind) : Event := EvMeasure (kind_path k) (kind_pcr k).

(** The events a call has added to the trace. *)
Definition new_events (w w' : World) : list Event :=
  drop (length (trace w)) (trace w').

Definition readable (p : Part) : bool :=
  match p with PartData _ => true | PartBroken _ => false end.

(** A Provision attempt for kind [k]: a POST whose form parses, whose
    files can all be read, and that carries the required pod.yaml part
    and the part of [k]. *)
Definition provision_attempt (r : Request) (k : Kind) : bool :=
  String.eqb (r_method r) MethodPost &&
  match r_multipart r with
  | None => false
  | Some form =>
    bool_decide (map_Forall (λ _ p, readable p = true) form) &&
    bool_decide (is_Some (form !! "pod.yaml")) &&
    bool_decide (is_Some (form !! kind_part k))
  end.



(** The host lets the whole of [atomicWriteFile filename data] through. *)
Definition write_goes_through (h : Host) (filename : string) (data : bytes)
    (w : World) : Prop :=
  open_fault h (tmp_of filename) = None ∧
  fs w !! tmp_of filename = None ∧
  write_fault h (tmp_of filename) data = None ∧
  sync_fault h (tmp_of filename) = None ∧
  rename_fault h (tmp_of filename) filename = None.

(** ** Concrete hosts, requests and worlds *)

Definition bytes_of (s : string) : bytes := String.list_byte_of_string s.

Definition good_host : Host :=
  mkHost (λ _, None) (λ _ _, None) (λ _, None) (λ _ _, None) (λ _ _, None)
         (λ _, None) (λ _, mkRun "pod started" "" None).


Definition sync_failing_host : Host :=
  mkHost (λ _, None) (λ _ _, None) (λ _, Some "input/output error") (λ _ _, None)
         (λ _ _, None) (λ _, None) (λ _, mkRun "pod started" "" None).

Definition no_podman_host : Host :=
  mkHost (λ _, None) (λ _ _, None) (λ _, None) (λ _ _, None) (λ _ _, None)
         (λ _, Some "executable file not found in $PATH")
         (λ _, mkRun "" "" (Some "exec: no command")).

Definition failing_engine_host : Host :=
  mkHost (λ _, None) (λ _ _, None) (λ _, None) (λ _ _, None) (λ _ _, None)
         (λ _, None)
         (λ _, mkRun "pulling image" "Error: invalid pod spec" (Some "exit status 125")).

Definition empty_world : World := mkWorld ∅ [] false.

Definition post_files (files : gmap string Part) : Request :=
  mkRequest MethodPost (Some files).

Definition spec_v1_request : Request :=
  post_files {[ "pod.yaml" := PartData (bytes_of "spec-v1") ]}.

Definition spec_v2_request : Request :=
  post_files {[ "pod.yaml" := PartData (bytes_of "spec-v2") ]}.

Definition spec_env_request : Request :=
  post_files (<[ "env" := PartData (bytes_of "TOKEN=1") ]>
              {[ "pod.yaml" := PartData (bytes_of "spec-v1") ]}).

Definition spec_empty_env_request : Request :=
  post_files (<[ "env" := PartData [] ]>
              {[ "pod.yaml" := PartData (bytes_of "spec-v1") ]}).

(** The part names of the specification's wording. *)
Definition podSpec_request : Request :=
  post_files (<[ "envBundle" := PartData (bytes_of "TOKEN=1") ]>
              {[ "podSpec" := PartData (bytes_of "spec-v1") ]}).

Definition launch_request : Request := mkRequest MethodPost None.

(** The world after [spec_v1_request] went through on an empty disk. *)
Definition spec_v1_world : World :=
  mkWorld {[ podYamlPath := bytes_of "spec-v1" ]}
          [persisted Spec; measured Spec] false.

(** Two uploads of a Spec, and two launches, in flight at once. *)
Definition racing_uploads : Pool :=
  mkPool empty_world
    [mkThread good_host (UInit spec_v1_request);
     mkThread good_host (UInit spec_v2_request)].

Definition racing_launches : Pool :=
  mkPool spec_v1_world
    [mkThread good_host (SInit launch_request);
     mkThread good_host (SInit launch_request)].

Definition plain_podman : Cmd := mkCmd "podman" ["play"; "kube"; podYamlPath].

(** ** Outcomes of the /upload handler *)

Definition after_spec (podContent : bytes) (w : World) : gmap string bytes :=
  <[podYamlPath := podContent]> (fs w).

Definition after_both (podContent envContent : bytes) (w : World) : gmap string bytes :=
  <[envFilePath := envContent]> (<[podYamlPath := podContent]> (fs w)).

(** Every way [upload_persist] can end: the response, the files and the
    events it leaves. *)
Inductive persist_outcome (h : Host) (podContent envContent : bytes) (w : World)
  : Response → World → Prop :=
| PO_pod_write_failed e :
    persist_outcome h podContent envContent w
      (http_Error ("Failed to write pod.yaml: " +:+ e) StatusInternalServerError) w
| PO_pod_measure_failed e :
    tpm_fault h podYamlPath 13 = Some e →
    persist_outcome h podContent envContent w
      (http_Error "Failed to measure pod.yaml" StatusInternalServerError)
      (mkWorld (after_spec podContent w) (trace w ++ [persisted Spec]) (shutdownCh w))
| PO_spec_only :
    envContent = [] →
    tpm_fault h podYamlPath 13 = None →
    persist_outcome h podContent envContent w
      (WriteHeader StatusCreated)
      (mkWorld (after_spec podContent w)
               (trace w ++ [persisted Spec; measured Spec]) (shutdownCh w))
| PO_env_write_failed e :
    envContent ≠ [] →
    tpm_fault h podYamlPath 13 = None →
    persist_outcome h podContent envContent w
      (http_Error ("Failed to write env: " +:+ e) StatusInternalServerError)
      (mkWorld (after_spec podContent w)
               (trace w ++ [persisted Spec; measured Spec]) (shutdownCh w))
| PO_env_measure_failed e :
    envContent ≠ [] →
    tpm_fault h podYamlPath 13 = None →
    tpm_fault h envFilePath 14 = Some e →
    persist_outcome h podContent envContent w
      (http_Error "Failed to measure env" StatusInternalServerError)
      (mkWorld (after_both podContent envContent w)
               (trace w ++ [persisted Spec; measured Spec; persisted EnvBundle])
               (shutdownCh w))
| PO_both :
    envContent ≠ [] →
    tpm_fault h podYamlPath 13 = None →
    tpm_fault h envFilePath 14 = None →
    persist_outcome h podContent envContent w
      (WriteHeader StatusCreated)
      (mkWorld (after_both podContent envContent w)
               (trace w ++ [persisted Spec; measured Spec;
                            persisted EnvBundle; measured EnvBundle])
               (shutdownCh w)).

(** What the handler does before it starts writing. *)
Inductive upload_outcome (h : Host) (r : Request) (w : World)
  : Response → World → Prop :=
| UO_rejected resp :
    status resp ≠ StatusCreated →
    upload_outcome h r w resp w
| UO_persist form podContent envContent resp w' :
    r_method r = MethodPost →
    r_multipart r = Some form →
    form !! "pod.yaml" = Some (PartData podContent) →
    fs w !! podYamlPath = None →
    (form !! "env" = None ∧ envContent = [] ∨
     form !! "env" = Some (PartData envContent) ∧ fs w !! envFilePath = None) →
    persist_outcome h podContent envContent w resp w' →
    upload_outcome h r w resp w'.

(** ** Responses *)

Definition outcome_status (o : Outcome) : option Z :=
  match o with
  | Responded resp => Some (status resp)
  | _ => None
  end.

(** [sub] occurs in [s]. *)
Definition occurs_in (sub s : string) : Prop :=
  ∃ pre post, s = pre +:+ sub +:+ post.

(** ** Invariants of the running process *)

(** States the process can be in once [main] has reached
    [ListenAndServe]. *)
Definition reachable (s : Server) : Prop :=
  ∃ w sched, s = (run sched (boot w)).2.

(** What holds of the goroutine, the wait group and [main] throughout. *)
Record Inv (s : Server) : Prop := mkInv {
  inv_recv : shutdownCh (world s) = false → watcher s = WRecv;
  inv_closed : server_closed s = true ↔ (watcher s = WDefer ∨ watcher s = WDone);
  inv_wg : wg s = (if watcher s is WDone then 0 else 1)%nat;
  inv_wait : main_pc s = MWait ∨ main_pc s = MExit → server_closed s = true;
  inv_exit : main_pc s = MExit → watcher s = WDone
}.

Definition is_watcher (a : Action) : bool :=
  match a with AWatcher => true | _ => false end.

Definition watcher_rank (p : WatcherPc) : nat :=
  match p with WRecv => 0 | WClose => 1 | WDefer => 2 | WDone => 3 end.


(** ** More hosts, worlds and commands *)

(** What /start runs when the environment file is there. *)
Definition sh_podman : Cmd :=
  mkCmd "sh" ["-c"; ". /tmp/env && podman play kube /tmp/pod.yaml"].

(** A host whose disk fills up after three bytes of a write. *)
Definition short_write_host : Host :=
  mkHost (λ _, None) (λ _ _, Some (3%nat, "no space left on device"))
         (λ _, None) (λ _ _, None) (λ _ _, None)
         (λ _, None) (λ _, mkRun "pod started" "" None).


(** A disk on which an earlier run left its temporary file behind. *)
Definition stale_tmp_world : World :=
  mkWorld {[ tmp_of podYamlPath := bytes_of "sp" ]} [] false.

(** The process right after a Launch has gone through. *)
Definition launched_server : Server :=
  (run [ARequest "/start" good_host launch_request] (boot spec_v1_world)).2.

Definition is_listen_fail (a : Action) : bool :=
  match a with AListenFail => true | _ => false end.

(** The TPM of the source: [measureIntoPCR] logs and returns nil. *)
Definition placeholder_tpm (h : Host) : Prop :=
  ∀ filepath pcrIndex, tpm_fault h filepath pcrIndex = None.

Definition on_placeholder_tpm (a : Action) : Prop :=
  match a with
  | ARequest _ h _ => placeholder_tpm h
  | _ => True
  end.

(** Every artifact on disk has its register extension in the trace. *)
Definition all_measured (w : World) : Prop :=
  ∀ k, is_Some (fs w !! kind_path k) → measured k ∈ trace w.

(** A disk that holds an environment file from an earlier run, never
    measured by this process. *)
Definition stale_env_world : World :=
  mkWorld {[ envFilePath := bytes_of "TOKEN=old" ]} [] false.

(** The events the /upload handler can leave. *)
Definition provisioning_event (e : Event) : Prop :=
  ∃ k, e = persisted k ∨ e = measured k.

(** ** Tactics *)

(** [H : e ∈ l] for a concrete list [l] that does not hold [e]. *)
Ltac no_such_event H :=
  exfalso; cbv in H;
  repeat (apply elem_of_cons in H as [H|H]; [discriminate H |]);
  by apply elem_of_nil in H.

(** The fields of [Inv] after a step, from those before it. *)
Ltac inv_solve :=
  split; cbn [world server_closed wg watcher main_pc] in *;
  intuition (subst; try discriminate; try congruence; try done).

(** * Proofs *)

(** ** Paths *)

Lemma string_length_app (s t : string) :
  String.length (s +:+ t) = (String.length s + String.length t)%nat.
Proof.
  induction s as [|c s IH]; [done |].
  change (S (String.length (s +:+ t)) = S (String.length s + String.length t)).
  by f_equal.
Qed.

Lemma tmp_of_ne (filename : string) : tmp_of filename ≠ filename.
Proof.
  unfold tmp_of. intros Heq.
  apply (f_equal String.length) in Heq.
  rewrite string_length_app in Heq. simpl in Heq. lia.
Qed.

Lemma pod_ne_env : podYamlPath ≠ envFilePath.
Proof. discriminate. Qed.

Lemma fileExists_true (p : string) (w : World) :
  fileExists p w = true ↔ is_Some (fs w !! p).
Proof. unfold fileExists. apply bool_decide_eq_true. Qed.

Lemma fileExists_false (p : string) (w : World) :
  fileExists p w = false ↔ fs w !! p = None.
Proof.
  unfold fileExists. rewrite bool_decide_eq_false.
  split; [apply eq_None_not_Some | intros ->; by apply is_Some_None].
Qed.

(** ** [atomicWriteFile] *)

(** A successful call found no temporary file, put [data] at [filename]
    and left one rename in the trace. *)
Lemma atomicWriteFile_ok h filename data w w' :
  atomicWriteFile h filename data w = (None, w') →
  fs w !! tmp_of filename = None ∧
  w' = mkWorld (<[filename := data]> (fs w))
               (trace w ++ [EvRename (tmp_of filename) filename])
               (shutdownCh w).
Proof.
  unfold atomicWriteFile, os_OpenFile_excl, f_Write, f_Sync, os_Rename.
  fold (tmp_of filename).
  destruct (open_fault h (tmp_of filename)); [discriminate |].
  destruct (fs w !! tmp_of filename) eqn:Htmp; [discriminate |].
  destruct (write_fault h (tmp_of filename) data) as [[n e]|]; [discriminate |].
  destruct (sync_fault h (tmp_of filename)); [discriminate |].
  destruct (rename_fault h (tmp_of filename) filename); [discriminate |].
  cbn [fs set_fs]. rewrite !lookup_insert_eq. cbn [default app].
  intros [= <-]. split; [done |].
  unfold emit, set_fs; cbn [fs trace shutdownCh]. f_equal.
  rewrite !delete_insert_eq, delete_id by done. done.
Qed.

(** A failing call leaves the world as it found it. *)
Lemma atomicWriteFile_err h filename data w e w' :
  atomicWriteFile h filename data w = (Some e, w') → w' = w.
Proof.
  unfold atomicWriteFile, os_OpenFile_excl, f_Write, f_Sync, os_Rename, os_Remove.
  fold (tmp_of filename).
  destruct (open_fault h (tmp_of filename)); [by intros [= _ <-] |].
  destruct (fs w !! tmp_of filename) eqn:Htmp; [by intros [= _ <-] |].
  assert (Hback : ∀ c, set_fs (delete (tmp_of filename)
                    (<[tmp_of filename := c]> (<[tmp_of filename := []]> (fs w)))) w = w).
  { intros c. rewrite !delete_insert_eq, delete_id by done. by destruct w. }
  destruct (write_fault h (tmp_of filename) data) as [[n e']|].
  { intros [= _ <-]. cbn [fs set_fs trace shutdownCh].
    rewrite lookup_insert_eq. apply Hback. }
  destruct (sync_fault h (tmp_of filename)).
  { intros [= _ <-]. cbn [fs set_fs trace shutdownCh].
    rewrite lookup_insert_eq. apply Hback. }
  destruct (rename_fault h (tmp_of filename) filename).
  { intros [= _ <-]. cbn [fs set_fs trace shutdownCh].
    rewrite lookup_insert_eq. apply Hback. }
  cbn [fs set_fs]. rewrite !lookup_insert_eq. discriminate.
Qed.

(** Up to the rename nothing shows at the final location: the worlds
    after open, after a (possibly partial) write and after sync agree
    with the initial one on every path but the temporary one. *)
Lemma atomicWriteFile_prefix_invisible h filename data w w1 w2 w3 e1 e2 e3 :
  os_OpenFile_excl h (tmp_of filename) w = (e1, w1) →
  f_Write h (tmp_of filename) data w1 = (e2, w2) →
  f_Sync h (tmp_of filename) w2 = (e3, w3) →
  ∀ p, p ≠ tmp_of filename →
    fs w1 !! p = fs w !! p ∧ fs w2 !! p = fs w !! p ∧ fs w3 !! p = fs w !! p.
Proof.
  unfold os_OpenFile_excl, f_Write, f_Sync. intros H1 H2 [= _ <-] p Hp.
  assert (E1 : fs w1 !! p = fs w !! p).
  { destruct (open_fault h (tmp_of filename)); [by injection H1 as _ <- |].
    destruct (fs w !! tmp_of filename); injection H1 as _ <-; [done |].
    cbn [fs set_fs]. by rewrite lookup_insert_ne. }
  assert (E2 : fs w2 !! p = fs w1 !! p).
  { destruct (write_fault h (tmp_of filename) data) as [[n e]|];
      injection H2 as _ <-; cbn [fs set_fs]; by rewrite lookup_insert_ne. }
  rewrite E2, E1. done.
Qed.


(** ** The /upload handler *)

Lemma upload_persist_outcome h podContent envContent w resp w' :
  upload_persist h podContent envContent w = (resp, w') →
  persist_outcome h podContent envContent w resp w'.
Proof.
  unfold upload_persist.
  destruct (atomicWriteFile h podYamlPath podContent w) as [[e|] w1] eqn:Hw1.
  { apply atomicWriteFile_err in Hw1 as ->. intros [= <- <-].
    apply PO_pod_write_failed. }
  apply atomicWriteFile_ok in Hw1 as [_ ->].
  unfold measureIntoPCR at 1.
  destruct (tpm_fault h podYamlPath 13) as [e|] eqn:Htpm1.
  { intros [= <- <-]. by apply PO_pod_measure_failed with e. }
  unfold emit; cbn [fs trace shutdownCh].
  rewrite <- app_assoc. cbn [app].
  destruct envContent as [|c envContent]; cbn [length Nat.ltb Nat.leb].
  { intros [= <- <-]. by apply PO_spec_only. }
  set (ec := c :: envContent).
  set (w2 := mkWorld _ _ _).
  destruct (atomicWriteFile h envFilePath ec w2) as [[e|] w3] eqn:Hw3.
  { apply atomicWriteFile_err in Hw3 as ->. intros [= <- <-].
    by apply PO_env_write_failed. }
  apply atomicWriteFile_ok in Hw3 as [_ ->].
  subst w2; cbn [fs trace shutdownCh].
  rewrite <- app_assoc. cbn [app].
  unfold measureIntoPCR.
  destruct (tpm_fault h envFilePath 14) as [e|] eqn:Htpm2.
  { intros [= <- <-]. by apply PO_env_measure_failed with e. }
  unfold emit; cbn [fs trace shutdownCh].
  rewrite <- app_assoc. cbn [app].
  intros [= <- <-]. by apply PO_both.
Qed.

Lemma upload_handler_outcome h r w resp w' :
  upload_handler h r w = (resp, w') → upload_outcome h r w resp w'.
Proof.
  unfold upload_handler, FormFile, ReadAll.
  destruct (String.eqb_spec (r_method r) MethodPost) as [Hm|Hm]; cbn [negb];
    [| intros [= <- <-]; by apply UO_rejected].
  destruct (r_multipart r) as [form|] eqn:Hform;
    [| intros [= <- <-]; by apply UO_rejected].
  destruct (form !! "pod.yaml") as [[podContent|e]|] eqn:Hpod;
    destruct (fileExists podYamlPath w) eqn:Hex;
    try (intros [= <- <-]; by apply UO_rejected).
  apply fileExists_false in Hex.
  destruct (form !! "env") as [[envContent|e]|] eqn:Henv.
  - destruct (fileExists envFilePath w) eqn:Hex2;
      [intros [= <- <-]; by apply UO_rejected |].
    apply fileExists_false in Hex2. intros Hp.
    eapply UO_persist; eauto using upload_persist_outcome.
  - destruct (fileExists envFilePath w); intros [= <- <-]; by apply UO_rejected.
  - intros Hp. eapply UO_persist; eauto using upload_persist_outcome.
Qed.

Lemma new_events_app (w w' : World) (evs : list Event) :
  trace w' = trace w ++ evs → new_events w w' = evs.
Proof. unfold new_events. intros ->. apply drop_app_length. Qed.

Lemma provision_attempt_spec (r : Request) (k : Kind) :
  provision_attempt r k = true →
  r_method r = MethodPost ∧
  ∃ form, r_multipart r = Some form ∧
    (∀ name p, form !! name = Some p → ∃ b, p = PartData b) ∧
    is_Some (form !! "pod.yaml") ∧
    is_Some (form !! kind_part k).
Proof.
  unfold provision_attempt. intros H.
  apply andb_true_iff in H as [Hm H]. apply String.eqb_eq in Hm.
  destruct (r_multipart r) as [form|]; [| done].
  apply andb_true_iff in H as [H Hk]. apply andb_true_iff in H as [Hall Hpod].
  apply bool_decide_eq_true in Hall, Hpod, Hk.
  split; [done |]. exists form. repeat split; try done.
  intros name p Hp. specialize (Hall name p Hp). destruct p; [eauto | done].
Qed.

(** A Provision attempt for a kind that is on disk is turned down
    before anything is written. *)
Lemma upload_conflict h r w k :
  provision_attempt r k = true →
  is_Some (fs w !! kind_path k) →
  ∃ resp, upload_handler h r w = (resp, w) ∧ status resp = StatusConflict.
Proof.
  intros Hat Hk. apply provision_attempt_spec in Hat
    as (Hm & form & Hform & Hread & [pod Hpod] & [part Hpart]).
  unfold upload_handler, FormFile. rewrite Hm, String.eqb_refl, Hform, Hpod.
  cbn [negb].
  destruct (fileExists podYamlPath w) eqn:Hex; [by eexists |].
  apply fileExists_false in Hex.
  destruct k; cbn [kind_path kind_part] in *.
  { rewrite Hex in Hk. by destruct Hk. }
  destruct (Hread _ _ Hpod) as [b ->]. cbn [ReadAll].
  rewrite Hpart. apply fileExists_true in Hk. rewrite Hk. by eexists.
Qed.

(** No path that holds a file loses or changes it in [upload_persist]
    unless it is one of the two the call is writing. *)
Lemma persist_outcome_keeps h podContent envContent w resp w' p :
  persist_outcome h podContent envContent w resp w' →
  p ≠ podYamlPath → (p ≠ envFilePath ∨ envContent = []) →
  fs w' !! p = fs w !! p.
Proof.
  intros Hout Hpod Henv.
  destruct Hout; cbn [fs]; unfold after_both, after_spec;
    try done; try (by rewrite lookup_insert_ne);
    (destruct Henv as [Henv|Henv]; [| done]);
    by rewrite !lookup_insert_ne.
Qed.

(** C1. Write-once: an artifact that is on durable storage keeps its
    bytes through every call of the upload handler, and a Provision
    attempt for its kind is answered with Conflict and changes nothing:
    the artifact is neither merged nor replaced. *)
Theorem provision_write_once h r w k b :
  fs w !! kind_path k = Some b →
  fs (upload_handler h r w).2 !! kind_path k = Some b ∧
  (provision_attempt r k = true →
   status (upload_handler h r w).1 = StatusConflict ∧
   (upload_handler h r w).2 = w).
Proof.
  intros Hb. split.
  - destruct (upload_handler h r w) as [resp w'] eqn:E. cbn [snd].
    apply upload_handler_outcome in E.
    destruct E as [resp Hst | form pc ec resp w' Hm Hform Hpod Hnopod Henv Hout];
      [done |].
    rewrite <- Hb.
    destruct k; cbn [kind_path] in *; [congruence |].
    destruct Henv as [[_ ->]|[_ Hnoenv]]; [| congruence].
    eapply persist_outcome_keeps; eauto using pod_ne_env.
  - intros Hat.
    destruct (upload_conflict h r w k Hat) as (resp & -> & Hst); [by eexists |].
    done.
Qed.

Lemma provision_write_once_witness :
  status (upload_handler good_host spec_v2_request spec_v1_world).1 = StatusConflict ∧
  (upload_handler good_host spec_v2_request spec_v1_world).2 = spec_v1_world.
Proof.
  apply (provision_write_once good_host spec_v2_request spec_v1_world Spec
           (bytes_of "spec-v1")).
  - vm_compute. reflexivity.
  - vm_compute. reflexivity.
Defined.

(** The trace of a call is the old trace followed by its new events. *)
Lemma persist_outcome_trace h podContent envContent w resp w' :
  persist_outcome h podContent envContent w resp w' →
  trace w' = trace w ++ new_events w w'.
Proof.
  intros Hout.
  destruct Hout; cbn [trace];
    try (by erewrite new_events_app by reflexivity).
  unfold new_events. by rewrite drop_all, app_nil_r.
Qed.

(** C2. Measure-once, write-before-measure: a provisioning run that
    answers Created has added to the trace exactly the rename of the
    Spec, then the extension of register 13 with it and, when an
    EnvBundle was persisted, then the rename of the EnvBundle and the
    extension of register 14: each persisted artifact is measured once,
    after its write, and the Spec's extension comes first. *)
Theorem provision_measure_once_in_order h r w resp w' :
  upload_handler h r w = (resp, w') →
  status resp = StatusCreated →
  trace w' = trace w ++ new_events w w' ∧
  ((new_events w w' = [persisted Spec; measured Spec] ∧
    fs w' !! envFilePath = fs w !! envFilePath ∧
    ∃ podContent, fs w' = after_spec podContent w) ∨
   (new_events w w' = [persisted Spec; measured Spec;
                       persisted EnvBundle; measured EnvBundle] ∧
    ∃ podContent envContent, fs w' = after_both podContent envContent w)).
Proof.
  intros E Hst. apply upload_handler_outcome in E.
  destruct E as [resp Hne | form pc ec resp w' Hm Hform Hpod Hnopod Henv Hout];
    [done |].
  split; [eapply persist_outcome_trace; eauto |].
  destruct Hout; try discriminate Hst.
  - left. split; [by apply new_events_app |]. cbn [fs]. split; [| by eexists].
    unfold after_spec. by rewrite lookup_insert_ne.
  - right. split; [by apply new_events_app |]. cbn [fs]. by eexists _, _.
Qed.

Lemma provision_measure_once_in_order_witness :
  let w' := (upload_handler good_host spec_env_request empty_world).2 in
  trace w' = trace empty_world ++ new_events empty_world w' ∧
  ((new_events empty_world w' = [persisted Spec; measured Spec] ∧
    fs w' !! envFilePath = fs empty_world !! envFilePath ∧
    ∃ podContent, fs w' = after_spec podContent empty_world) ∨
   (new_events empty_world w' = [persisted Spec; measured Spec;
                       persisted EnvBundle; measured EnvBundle] ∧
    ∃ podContent envContent, fs w' = after_both podContent envContent empty_world)).
Proof.
  apply (provision_measure_once_in_order good_host spec_env_request empty_world
           (upload_handler good_host spec_env_request empty_world).1).
  - apply surjective_pairing.
  - vm_compute. reflexivity.
Defined.






(** The handler's two BadRequest answers. *)
Lemma upload_bad_request h r w :
  r_method r = MethodPost →
  (r_multipart r = None ∨
   ∃ form, r_multipart r = Some form ∧ form !! "pod.yaml" = None) →
  ∃ msg, upload_handler h r w = (http_Error msg StatusBadRequest, w).
Proof.
  intros Hm Hbad. unfold upload_handler, FormFile.
  rewrite Hm, String.eqb_refl. cbn [negb].
  destruct Hbad as [-> | (form & -> & ->)]; by eexists.
Qed.

(** C5, with the part names of the specification: a request that carries the
    Spec in a part named "podSpec" and the bundle in "envBundle" is
    answered with BadRequest on an empty disk, and nothing is stored. *)
Lemma podSpec_part_is_not_read :
  upload_handler good_host podSpec_request empty_world =
    (http_Error "pod.yaml is required" StatusBadRequest, empty_world).
Proof. vm_compute. reflexivity. Qed.

(** C5 as the handler has it.  The upload handler reads the required
    Spec from the multipart part named "pod.yaml" and the optional
    EnvBundle from the part named "env": on a POST it answers
    BadRequest when the form does not parse or has no "pod.yaml" part,
    and when it answers Created the Spec file holds the bytes of the
    "pod.yaml" part and, where an "env" part with at least one byte was
    sent, the EnvBundle file holds the bytes of that part. *)
Theorem upload_reads_named_parts h r w resp w' :
  r_method r = MethodPost →
  upload_handler h r w = (resp, w') →
  (r_multipart r = None → status resp = StatusBadRequest ∧ w' = w) ∧
  (∀ form, r_multipart r = Some form → form !! "pod.yaml" = None →
     status resp = StatusBadRequest ∧ w' = w) ∧
  (status resp = StatusCreated →
     ∃ form podContent,
       r_multipart r = Some form ∧
       form !! "pod.yaml" = Some (PartData podContent) ∧
       fs w' !! podYamlPath = Some podContent ∧
       (∀ envContent, form !! "env" = Some (PartData envContent) →
          envContent ≠ [] → fs w' !! envFilePath = Some envContent) ∧
       (form !! "env" = None → fs w' !! envFilePath = fs w !! envFilePath)).
Proof.
  intros Hm E. split; [| split].
  - intros Hnone.
    destruct (upload_bad_request h r w Hm) as [msg Hb]; [by left |].
    rewrite Hb in E. by injection E as <- <-.
  - intros form Hform Hpod.
    destruct (upload_bad_request h r w Hm) as [msg Hb]; [right; by exists form |].
    rewrite Hb in E. by injection E as <- <-.
  - intros Hst. apply upload_handler_outcome in E.
    destruct E as [resp Hne | form pc ec resp w' _ Hform Hpod Hnopod Henv Hout];
      [done |].
    exists form, pc. split; [done |]. split; [done |].
    destruct Hout as [e|e Ht|Hec Ht|e Hec Ht|e Hec Ht Ht2|Hec Ht Ht2];
      try discriminate Hst; cbn [fs]; unfold after_spec, after_both.
    + subst ec. split; [by rewrite lookup_insert_eq |]. split.
      * intros ec' Hec' Hnonempty. destruct Henv as [[Hn _]|[Hs _]]; congruence.
      * intros _. by rewrite lookup_insert_ne.
    + split; [by rewrite lookup_insert_ne, lookup_insert_eq |]. split.
      * intros ec' Hec' _. destruct Henv as [[Hn _]|[Hs _]]; [congruence |].
        rewrite Hs in Hec'. injection Hec' as <-. by rewrite lookup_insert_eq.
      * intros Hn. destruct Henv as [[_ ->]|[Hs _]]; [done | congruence].
Qed.

Lemma upload_reads_named_parts_witness :
  ∃ form podContent,
    r_multipart spec_env_request = Some form ∧
    form !! "pod.yaml" = Some (PartData podContent) ∧
    fs (upload_handler good_host spec_env_request empty_world).2 !! podYamlPath
      = Some podContent ∧
    (∀ envContent, form !! "env" = Some (PartData envContent) →
       envContent ≠ [] →
       fs (upload_handler good_host spec_env_request empty_world).2 !! envFilePath
         = Some envContent) ∧
    (form !! "env" = None →
       fs (upload_handler good_host spec_env_request empty_world).2 !! envFilePath
         = fs empty_world !! envFilePath).
Proof.
  apply (upload_reads_named_parts good_host spec_env_request empty_world
           (upload_handler good_host spec_env_request empty_world).1
           (upload_handler good_host spec_env_request empty_world).2).
  - reflexivity.
  - symmetry. apply surjective_pairing.
  - vm_compute. reflexivity.
Defined.

(** ** The /start handler *)

Lemma string_app_assoc (s t u : string) : (s +:+ t) +:+ u = s +:+ t +:+ u.
Proof.
  induction s as [|c s IH]; [done |].
  change (String c ((s +:+ t) +:+ u) = String c (s +:+ t +:+ u)). by f_equal.
Qed.

(** The failure message carries both capture buffers and the cause. *)
Lemma start_failed_msg_occurs (res : RunResult) (e : string) :
  occurs_in (run_stdout res) (start_failed_msg res e) ∧
  occurs_in (run_stderr res) (start_failed_msg res e) ∧
  occurs_in e (start_failed_msg res e).
Proof.
  unfold occurs_in, start_failed_msg. split; [| split].
  - exists ("Container start failed:" +:+ nl +:+ "Stdout: "),
           (nl +:+ "Stderr: " +:+ run_stderr res +:+ nl +:+ "Error: " +:+ e).
    by rewrite !string_app_assoc.
  - exists ("Container start failed:" +:+ nl +:+ "Stdout: " +:+ run_stdout res
              +:+ nl +:+ "Stderr: "),
           (nl +:+ "Error: " +:+ e).
    by rewrite !string_app_assoc.
  - exists ("Container start failed:" +:+ nl +:+ "Stdout: " +:+ run_stdout res
              +:+ nl +:+ "Stderr: " +:+ run_stderr res +:+ nl +:+ "Error: "), "".
    rewrite !string_app_assoc. repeat f_equal.
    clear. induction e as [|c e IH]; [done |].
    change (String c e = String c (e +:+ "")). by f_equal.
Qed.

(** The handler when the Spec is missing. *)
Lemma start_missing_spec h r w :
  r_method r = MethodPost → fs w !! podYamlPath = None →
  start_handler h r w = (Responded (http_Error "pod.yaml not found" StatusNotFound), w).
Proof.
  intros Hm Hnone. unfold start_handler.
  rewrite Hm, String.eqb_refl. cbn [negb].
  apply fileExists_false in Hnone. by rewrite Hnone.
Qed.

(** The handler when the Spec is there: the four ways it can end. *)
Lemma start_with_spec h r w :
  r_method r = MethodPost → is_Some (fs w !! podYamlPath) →
  let cmd := start_command w in
  let res := run_cmd h cmd in
  start_handler h r w =
    match look_path h "podman" with
    | Some _ =>
      (Responded (http_Error "podman is not installed" StatusInternalServerError), w)
    | None =>
      match run_err res with
      | Some e =>
        (Responded (http_Error (start_failed_msg res e) StatusInternalServerError),
         emit (EvExec cmd) w)
      | None =>
        if shutdownCh w
        then (Panicked "close of closed channel", emit (EvExec cmd) w)
        else (Responded (WriteHeader StatusOK),
              mkWorld (fs w) (trace w ++ [EvExec cmd; EvCloseShutdown]) true)
      end
    end.
Proof.
  intros Hm Hsome. unfold start_handler.
  rewrite Hm, String.eqb_refl. cbn [negb].
  apply fileExists_true in Hsome. rewrite Hsome. cbn [negb].
  destruct (look_path h "podman"); [done |].
  destruct (run_err _); [done |].
  unfold close_shutdownCh, emit; cbn [shutdownCh fs trace].
  destruct (shutdownCh w); [done |].
  by rewrite <- app_assoc.
Qed.

(** C6. Launch precondition: a Launch is answered with NotFound exactly
    when the Spec file is absent from durable storage, whatever else
    the world holds (the channel, the trace, an EnvBundle file or
    none); with a Spec and no EnvBundle the handler goes on to the
    engine and, podman being installed, runs
    [podman play kube /tmp/pod.yaml], without any environment file. *)
Theorem launch_precondition h r w :
  r_method r = MethodPost →
  (outcome_status (start_handler h r w).1 = Some StatusNotFound ↔
   fs w !! podYamlPath = None) ∧
  (is_Some (fs w !! podYamlPath) → fs w !! envFilePath = None →
   look_path h "podman" = None →
   head (new_events w (start_handler h r w).2) =
     Some (EvExec (mkCmd "podman" ["play"; "kube"; podYamlPath]))).
Proof.
  intros Hm. split; [split |].
  - intros Hst. destruct (fs w !! podYamlPath) as [b|] eqn:Hpod; [| done].
    rewrite start_with_spec in Hst by (done || by eexists).
    destruct (look_path h "podman"); [discriminate Hst |].
    destruct (run_err _); [discriminate Hst |].
    destruct (shutdownCh w); discriminate Hst.
  - intros Hnone. by rewrite start_missing_spec.
  - intros Hsome Hnoenv Hlook.
    rewrite start_with_spec by done. rewrite Hlook.
    assert (Hcmd : start_command w = mkCmd "podman" ["play"; "kube"; podYamlPath]).
    { unfold start_command. apply fileExists_false in Hnoenv. by rewrite Hnoenv. }
    rewrite Hcmd.
    destruct (run_err _); [| destruct (shutdownCh w)]; cbn [snd];
      by erewrite new_events_app by reflexivity.
Qed.

Lemma launch_precondition_witness :
  (outcome_status (start_handler good_host launch_request spec_v1_world).1
     = Some StatusNotFound ↔ fs spec_v1_world !! podYamlPath = None) ∧
  (is_Some (fs spec_v1_world !! podYamlPath) →
   fs spec_v1_world !! envFilePath = None →
   look_path good_host "podman" = None →
   head (new_events spec_v1_world
           (start_handler good_host launch_request spec_v1_world).2) =
     Some (EvExec (mkCmd "podman" ["play"; "kube"; podYamlPath]))).
Proof.
  apply (launch_precondition good_host launch_request spec_v1_world).
  reflexivity.
Defined.

(** ** The running process *)

(** Neither handler ever reopens the channel. *)
Lemma upload_handler_shutdownCh h r w :
  shutdownCh (upload_handler h r w).2 = shutdownCh w.
Proof.
  destruct (upload_handler h r w) as [resp w'] eqn:E. cbn [snd].
  apply upload_handler_outcome in E.
  destruct E as [| ? ? ? ? ? _ _ _ _ _ Hout]; [done |]. by destruct Hout.
Qed.

Lemma start_handler_shutdownCh h r w :
  shutdownCh w = true → shutdownCh (start_handler h r w).2 = true.
Proof.
  intros Hsh. unfold start_handler, close_shutdownCh.
  destruct (negb _); [done |]. destruct (negb _); [done |].
  destruct (look_path h "podman"); [done |].
  destruct (run_err _); [done |].
  cbn [emit shutdownCh]. by rewrite Hsh.
Qed.

Lemma dispatch_shutdownCh path h r w :
  shutdownCh w = true → shutdownCh (dispatch path h r w).2 = true.
Proof.
  intros Hsh. unfold dispatch.
  destruct (String.eqb path "/upload").
  { pose proof (upload_handler_shutdownCh h r w) as Hu.
    destruct (upload_handler h r w). cbn [snd] in *. congruence. }
  destruct (String.eqb path "/start"); [by apply start_handler_shutdownCh | done].
Qed.

Lemma act_shutdownCh a s :
  shutdownCh (world s) = true → shutdownCh (world (act a s).2) = true.
Proof.
  intros Hsh. destruct a as [path h r| | |]; cbn [act].
  - destruct (serving s); [| done].
    pose proof (dispatch_shutdownCh path h r (world s) Hsh) as Hd.
    by destruct (dispatch path h r (world s)).
  - unfold watcher_step. destruct (watcher s); [rewrite Hsh | | |]; done.
  - unfold main_step. destruct (main_pc s); [destruct (server_closed s) |
      destruct (Nat.eqb _ _) | |]; done.
  - destruct (main_pc s); [destruct (server_closed s) | | |]; done.
Qed.

Lemma Inv_boot w : Inv (boot w).
Proof.
  split; cbn [boot world server_closed wg watcher main_pc shutdownCh].
  - done.
  - split; [done | by intros [|]].
  - done.
  - by intros [|].
  - done.
Qed.

Lemma Inv_watcher_step s : Inv s → Inv (watcher_step s).
Proof.
  intros Hs. unfold watcher_step.
  destruct s as [w c g p m]; cbn [world server_closed wg watcher main_pc].
  destruct p; [destruct (shutdownCh w) eqn:Hsh | | |]; try exact Hs;
    destruct Hs as [H1 H2 H3 H4 H5]; inv_solve.
Qed.

Lemma Inv_main_step s : Inv s → Inv (main_step s).
Proof.
  intros Hs. unfold main_step.
  destruct s as [w c g p m]; cbn [world server_closed wg watcher main_pc].
  destruct m; [destruct c eqn:Hc | destruct (Nat.eqb g 0) eqn:Hg | |];
    try exact Hs; destruct Hs as [H1 H2 H3 H4 H5]; inv_solve.
Qed.

Lemma Inv_act a s : Inv s → Inv (act a s).2.
Proof.
  intros Hs. destruct a as [path h r| | |]; cbn [act].
  - destruct (serving s); [| exact Hs].
    pose proof (dispatch_shutdownCh path h r (world s)) as Hmono.
    destruct (dispatch path h r (world s)) as [o w']. cbn [snd] in *.
    destruct Hs as [H1 H2 H3 H4 H5].
    split; cbn [set_world world server_closed wg watcher main_pc]; try done.
    intros Hsh. apply H1. destruct (shutdownCh (world s)); [| done].
    rewrite Hmono in Hsh; done.
  - by apply Inv_watcher_step.
  - by apply Inv_main_step.
  - destruct s as [w c g p m]; cbn [world server_closed wg watcher main_pc].
    destruct m; [destruct c eqn:Hc | | |]; try exact Hs;
      destruct Hs as [H1 H2 H3 H4 H5]; cbn [snd]; inv_solve.
Qed.

Lemma run_app sched1 sched2 s :
  run (sched1 ++ sched2) s =
    ((run sched1 s).1 ++ (run sched2 (run sched1 s).2).1,
     (run sched2 (run sched1 s).2).2).
Proof.
  revert s. induction sched1 as [|a sched1 IH]; intros s; cbn [run app].
  { cbn [fst snd app]. by destruct (run sched2 s). }
  destruct (act a s) as [o s1]. rewrite IH.
  destruct (run sched1 s1) as [os s2]. cbn [fst snd].
  destruct (run sched2 s2) as [os' s3]. cbn [fst snd]. by destruct o.
Qed.

Lemma Inv_run sched s : Inv s → Inv (run sched s).2.
Proof.
  revert s. induction sched as [|a sched IH]; intros s Hs; cbn [run]; [done |].
  pose proof (Inv_act a s Hs) as Ha. destruct (act a s) as [o s1].
  specialize (IH s1 Ha). by destruct (run sched s1).
Qed.

Lemma reachable_Inv s : reachable s → Inv s.
Proof. intros (w & sched & ->). apply Inv_run, Inv_boot. Qed.

Lemma occurs_in_app_r (sub s t : string) : occurs_in sub s → occurs_in sub (s +:+ t).
Proof.
  intros (pre & post & ->). exists pre, (post +:+ t).
  by rewrite !string_app_assoc.
Qed.

(** C7. Engine failure: a Launch on a serving process with the Spec in
    place, when podman is not installed or the engine run fails, is
    answered with InternalError; the body is "podman is not installed"
    in the first case and in the second the message that carries the
    captured standard output, the captured standard error and the
    error of the run.  The call does not close the shutdown channel and
    touches neither the listener, the goroutine, the wait group nor
    [main]: the process is serving as before, and a later Launch on a
    host where the engine works is dispatched and answered OK. *)
Theorem launch_failure_surfaced_and_survived s h r :
  serving s = true →
  r_method r = MethodPost →
  is_Some (fs (world s) !! podYamlPath) →
  is_Some (look_path h "podman") ∨
    is_Some (run_err (run_cmd h (start_command (world s)))) →
  let res := run_cmd h (start_command (world s)) in
  ∃ resp w',
    act (ARequest "/start" h r) s = (Some (Responded resp), set_world w' s) ∧
    status resp = StatusInternalServerError ∧
    (is_Some (look_path h "podman") →
       body resp = "podman is not installed" +:+ nl) ∧
    (look_path h "podman" = None → ∀ e, run_err res = Some e →
       body resp = start_failed_msg res e +:+ nl ∧
       occurs_in (run_stdout res) (body resp) ∧
       occurs_in (run_stderr res) (body resp) ∧
       occurs_in e (body resp)) ∧
    (EvCloseShutdown ∉ new_events (world s) w') ∧
    shutdownCh w' = shutdownCh (world s) ∧
    fs w' = fs (world s) ∧
    serving (set_world w' s) = true ∧
    (∀ h2 r2,
       r_method r2 = MethodPost →
       look_path h2 "podman" = None →
       run_err (run_cmd h2 (start_command w')) = None →
       shutdownCh (world s) = false →
       (act (ARequest "/start" h2 r2) (set_world w' s)).1 =
         Some (Responded (WriteHeader StatusOK))).
Proof.
  intros Hserv Hm Hpod Hfail res.
  assert (Hretry : ∀ w', fs w' = fs (world s) → shutdownCh w' = shutdownCh (world s) →
    serving (set_world w' s) = true ∧
    ∀ h2 r2, r_method r2 = MethodPost → look_path h2 "podman" = None →
      run_err (run_cmd h2 (start_command w')) = None →
      shutdownCh (world s) = false →
      (act (ARequest "/start" h2 r2) (set_world w' s)).1 =
        Some (Responded (WriteHeader StatusOK))).
  { intros w' Hfs Hsh. split; [exact Hserv |].
    intros h2 r2 Hm2 Hlook2 Hrun2 Hopen. cbn [act].
    change (serving (set_world w' s)) with (serving s). rewrite Hserv.
    unfold dispatch. cbn [String.eqb Ascii.eqb Bool.eqb world set_world].
    rewrite start_with_spec by (done || by rewrite Hfs).
    rewrite Hlook2. cbn zeta. rewrite Hrun2, Hsh, Hopen. done. }
  cbn [act]. rewrite Hserv. unfold dispatch. cbn [String.eqb Ascii.eqb Bool.eqb].
  rewrite start_with_spec by done. cbn zeta. fold res.
  destruct (look_path h "podman") as [e0|] eqn:Hlook.
  - exists (http_Error "podman is not installed" StatusInternalServerError), (world s).
    split; [by destruct s |]. split; [done |]. split; [done |].
    split; [intros [=] |].
    split. { unfold new_events. rewrite drop_all. apply not_elem_of_nil. }
    split; [done |]. split; [done |]. by apply Hretry.
  - destruct Hfail as [[? [=]]|[e He]]. fold res in He. rewrite He.
    exists (http_Error (start_failed_msg res e) StatusInternalServerError),
           (emit (EvExec (start_command (world s))) (world s)).
    split; [done |]. split; [done |]. split; [by intros [? [=]] |].
    split.
    { intros _ e' [= <-]. split; [done |]. cbn [body http_Error].
      destruct (start_failed_msg_occurs res e) as (H1 & H2 & H3).
      auto using occurs_in_app_r. }
    split.
    { erewrite new_events_app by reflexivity. intros Hin.
      apply list_elem_of_singleton in Hin. discriminate Hin. }
    split; [done |]. split; [done |]. by apply Hretry.
Qed.

Lemma launch_failure_surfaced_and_survived_witness :
  ∃ resp w',
    act (ARequest "/start" failing_engine_host launch_request) (boot spec_v1_world)
      = (Some (Responded resp), set_world w' (boot spec_v1_world)) ∧
    status resp = StatusInternalServerError ∧
    occurs_in "Error: invalid pod spec" (body resp) ∧
    serving (set_world w' (boot spec_v1_world)) = true.
Proof.
  destruct (launch_failure_surfaced_and_survived (boot spec_v1_world)
              failing_engine_host launch_request)
    as (resp & w' & Hact & Hst & _ & Hbody & _ & _ & _ & Hserv & _).
  - reflexivity.
  - reflexivity.
  - by eexists.
  - right. by eexists.
  - exists resp, w'. split; [exact Hact |]. split; [exact Hst |].
    split; [| exact Hserv].
    destruct (Hbody eq_refl "exit status 125" eq_refl) as (_ & _ & Herr & _).
    exact Herr.
Defined.

(** *** After the signal *)




(** With the channel closed, every step of the goroutine moves it on. *)
Lemma act_watcher_rank a s :
  shutdownCh (world s) = true →
  watcher_rank (watcher (act a s).2) =
    if is_watcher a then Nat.min 3 (S (watcher_rank (watcher s)))
    else watcher_rank (watcher s).
Proof.
  intros Hsh. destruct a as [path h r| | |]; cbn [act is_watcher].
  - destruct (serving s); [| done]. by destruct (dispatch path h r (world s)).
  - unfold watcher_step. cbn [snd]. destruct (watcher s) eqn:Hw; rewrite ?Hsh; cbn; rewrite ?Hw; reflexivity.
  - unfold main_step. by destruct (main_pc s), (server_closed s), (Nat.eqb (wg s) 0).
  - by destruct (main_pc s), (server_closed s).
Qed.

Lemma run_shutdownCh sched s :
  shutdownCh (world s) = true → shutdownCh (world (run sched s).2) = true.
Proof.
  revert s. induction sched as [|a sched IH]; intros s Hsh; cbn [run]; [done |].
  pose proof (act_shutdownCh a s Hsh) as Ha. destruct (act a s) as [o s1].
  specialize (IH s1 Ha). by destruct (run sched s1).
Qed.

Lemma run_watcher_rank sched s :
  shutdownCh (world s) = true →
  watcher_rank (watcher (run sched s).2) =
    Nat.min 3 (watcher_rank (watcher s) + length (filter (λ a, is_watcher a = true) sched)).
Proof.
  revert s. induction sched as [|a sched IH]; intros s Hsh; cbn [run].
  { cbn. destruct (watcher s); cbn; lia. }
  pose proof (act_shutdownCh a s Hsh) as Ha.
  pose proof (act_watcher_rank a s Hsh) as Hr.
  destruct (act a s) as [o s1]. cbn [snd] in *.
  specialize (IH s1 Ha). destruct (run sched s1) as [os s2]. cbn [snd] in *.
  rewrite IH, Hr. rewrite filter_cons.
  destruct (is_watcher a) eqn:Hw.
  - rewrite decide_True by done. cbn [length]. lia.
  - rewrite decide_False by done. lia.
Qed.









(** ** Goroutines against the sequential handlers *)

(** Run alone, the steps of a handler goroutine add up to the handler. *)
Lemma upload_steps_agree h r w :
  handler_steps 6 h (UInit r) w =
    (Done (Responded (upload_handler h r w).1), (upload_handler h r w).2).
Proof.
  unfold upload_handler, upload_persist, handler_steps, handler_step, reply.
  destruct (negb _); [done |].
  destruct (r_multipart r) as [form|]; [| done].
  destruct (FormFile form "pod.yaml") as [podFile|]; [| done].
  destruct (fileExists podYamlPath w); [done |].
  destruct (ReadAll podFile) as [podContent|]; [| done].
  assert (Hrest : ∀ ec,
    (let '(pc1, w1) :=
       match atomicWriteFile h podYamlPath podContent w with
       | (Some e, w1) =>
         (Done (Responded (http_Error ("Failed to write pod.yaml: " +:+ e)
                             StatusInternalServerError)), w1)
       | (None, w1) => (UMeasurePod ec, w1)
       end in handler_steps 3 h pc1 w1) =
    (Done (Responded (upload_persist h podContent ec w).1),
     (upload_persist h podContent ec w).2)).
  { intros ec. unfold upload_persist, handler_steps, handler_step, reply.
    destruct (atomicWriteFile h podYamlPath podContent w) as [[e|] w1]; [done |].
    destruct (measureIntoPCR h podYamlPath 13 w1) as [[e|] w2]; [done |].
    destruct (0 <? length ec)%nat; [| done].
    destruct (atomicWriteFile h envFilePath ec w2) as [[e|] w3]; [done |].
    by destruct (measureIntoPCR h envFilePath 14 w3) as [[e|] w4]. }
  destruct (FormFile form "env") as [envFile|].
  - destruct (fileExists envFilePath w); [done |].
    destruct (ReadAll envFile) as [envContent|]; [| done].
    apply (Hrest envContent).
  - specialize (Hrest []).
    unfold handler_steps, handler_step, reply, upload_persist in Hrest |- *.
    destruct (atomicWriteFile h podYamlPath podContent w) as [[e|] w1]; [done |].
    destruct (measureIntoPCR h podYamlPath 13 w1) as [[e|] w2]; done.
Qed.

Lemma start_steps_agree h r w :
  handler_steps 4 h (SInit r) w =
    (Done (start_handler h r w).1, (start_handler h r w).2).
Proof.
  unfold start_handler, handler_steps, handler_step, reply.
  destruct (negb _); [done |]. destruct (negb _); [done |].
  destruct (look_path h "podman"); [done |].
  destruct (run_err _); [done |].
  by destruct (close_shutdownCh _).
Qed.

(** C9, under a schedule that lets both goroutines pass the existence
    check before either writes: both uploads of a Spec are answered
    Created, the second overwrites the first and register 13 is
    extended twice; and two launches that overlap both run the engine
    (the one that finishes second then panics on the closed channel). *)
Lemma concurrent_provisions_both_succeed :
  (let p := pool_run [0; 1; 0; 0; 1; 1]%nat racing_uploads in
   t_pc <$> p_threads p =
     [Done (Responded (WriteHeader StatusCreated));
      Done (Responded (WriteHeader StatusCreated))] ∧
   fs (p_world p) !! podYamlPath = Some (bytes_of "spec-v2") ∧
   trace (p_world p) =
     [persisted Spec; measured Spec; persisted Spec; measured Spec]) ∧
  (let p := pool_run [0; 1; 0; 1; 0; 1; 0; 1]%nat racing_launches in
   t_pc <$> p_threads p =
     [Done (Responded (WriteHeader StatusOK));
      Done (Panicked "close of closed channel")] ∧
   new_events spec_v1_world (p_world p) =
     [EvExec plain_podman; EvExec plain_podman; EvCloseShutdown]).
Proof. vm_compute. repeat split; reflexivity. Qed.

Lemma pool_run_app sched1 sched2 p :
  pool_run (sched1 ++ sched2) p = pool_run sched2 (pool_run sched1 p).
Proof. unfold pool_run. apply foldl_app. Qed.

(** Goroutine 0 of a pool running alone for [n] steps. *)
Lemma pool_run_first n t ts w :
  pool_run (replicate n 0%nat) (mkPool w (t :: ts)) =
    mkPool (handler_steps n (t_host t) (t_pc t) w).2
           (mkThread (t_host t) (handler_steps n (t_host t) (t_pc t) w).1 :: ts).
Proof.
  revert t w. induction n as [|n IH]; intros [h pc] w; cbn [replicate handler_steps].
  { done. }
  unfold pool_run in *. cbn [foldl]. unfold pool_step at 2.
  cbn [p_threads lookup list_lookup p_world t_host t_pc].
  destruct (handler_step h pc w) as [pc1 w1].
  cbn [list_insert insert]. apply (IH (mkThread h pc1) w1).
Qed.

Lemma pool_run_second n t0 t ts w :
  pool_run (replicate n 1%nat) (mkPool w (t0 :: t :: ts)) =
    mkPool (handler_steps n (t_host t) (t_pc t) w).2
           (t0 :: mkThread (t_host t) (handler_steps n (t_host t) (t_pc t) w).1 :: ts).
Proof.
  revert t w. induction n as [|n IH]; intros [h pc] w; cbn [replicate handler_steps].
  { done. }
  unfold pool_run in *. cbn [foldl]. unfold pool_step at 2.
  cbn [p_threads lookup list_lookup p_world t_host t_pc].
  destruct (handler_step h pc w) as [pc1 w1].
  cbn [list_insert insert]. apply (IH (mkThread h pc1) w1).
Qed.

(** C9 as the handlers have it.  The handlers hold no lock; what
    excludes a second success is the existence check alone, and only
    for attempts that do not overlap: when one upload goroutine has run
    to its end and answered Created before the other one starts, the
    other one, a Provision attempt for the Spec or for any kind the
    first has persisted, is answered Conflict and writes nothing. *)
Theorem serialized_provisions_exclude h1 r1 h2 r2 w k :
  let p := pool_run (replicate 6 0%nat ++ replicate 6 1%nat)
             (mkPool w [mkThread h1 (UInit r1); mkThread h2 (UInit r2)]) in
  let w1 := (upload_handler h1 r1 w).2 in
  status (upload_handler h1 r1 w).1 = StatusCreated →
  persisted k ∈ new_events w w1 →
  provision_attempt r2 k = true →
  ∃ resp2,
    t_pc <$> p_threads p =
      [Done (Responded (upload_handler h1 r1 w).1); Done (Responded resp2)] ∧
    status resp2 = StatusConflict ∧
    p_world p = w1.
Proof.
  intros p w1 Hst Hk Hat. subst p.
  rewrite pool_run_app, pool_run_first. cbn [t_host t_pc].
  rewrite upload_steps_agree. cbn [fst snd]. fold w1.
  rewrite pool_run_second.
  cbn [t_host t_pc]. rewrite upload_steps_agree. cbn [fst snd p_threads p_world].
  assert (Hpresent : is_Some (fs w1 !! kind_path k)).
  { subst w1. destruct (upload_handler h1 r1 w) as [resp w'] eqn:E.
    cbn [fst snd] in *. apply upload_handler_outcome in E.
    destruct E as [| form pc ec resp w' _ _ _ _ _ Hout]; [done |].
    destruct Hout; try discriminate Hst;
      erewrite new_events_app in Hk by reflexivity;
      (destruct k; [| try no_such_event Hk]);
      cbn [fs kind_path]; unfold after_spec, after_both;
      rewrite ?lookup_insert_eq, ?(lookup_insert_ne _ envFilePath podYamlPath),
        ?lookup_insert_eq by done; by eexists. }
  destruct (upload_conflict h2 r2 w1 k Hat Hpresent) as (resp2 & E2 & Hst2).
  exists resp2. rewrite E2. cbn [fst snd]. done.
Qed.

Lemma serialized_provisions_exclude_witness :
  ∃ resp2,
    t_pc <$> p_threads
       (pool_run (replicate 6 0%nat ++ replicate 6 1%nat)
          (mkPool empty_world [mkThread good_host (UInit spec_v1_request);
                               mkThread good_host (UInit spec_v2_request)])) =
      [Done (Responded (upload_handler good_host spec_v1_request empty_world).1);
       Done (Responded resp2)] ∧
    status resp2 = StatusConflict ∧
    p_world (pool_run (replicate 6 0%nat ++ replicate 6 1%nat)
          (mkPool empty_world [mkThread good_host (UInit spec_v1_request);
                               mkThread good_host (UInit spec_v2_request)]))
      = (upload_handler good_host spec_v1_request empty_world).2.
Proof.
  apply (serialized_provisions_exclude good_host spec_v1_request
           good_host spec_v2_request empty_world Spec).
  - vm_compute. reflexivity.
  - vm_compute. apply list_elem_of_here.
  - vm_compute. reflexivity.
Defined.

(** ** The empty env part *)

Lemma atomicWriteFile_succeeds h filename data w :
  write_goes_through h filename data w →
  (atomicWriteFile h filename data w).1 = None.
Proof.
  intros (Ho & Ht & Hw & Hs & Hr).
  unfold atomicWriteFile, os_OpenFile_excl, f_Write, f_Sync, os_Rename.
  fold (tmp_of filename). rewrite Ho, Ht, Hw, Hs, Hr.
  cbn [fs set_fs]. by rewrite !lookup_insert_eq.
Qed.

(** C10. An upload whose env part holds no byte, next to a readable
    Spec part: whatever the disk and the host, the call does not touch
    the EnvBundle file and records neither its rename nor an extension
    of register 14; when the disk is fresh and the host lets the Spec
    through, the answer is Created all the same; and whenever the
    answer is Created there is no EnvBundle file afterwards, so that a
    Launch on the resulting disk runs podman without an environment
    file. *)
Theorem empty_env_part_dropped h r w form podContent :
  r_method r = MethodPost →
  r_multipart r = Some form →
  form !! "pod.yaml" = Some (PartData podContent) →
  form !! "env" = Some (PartData []) →
  let resp := (upload_handler h r w).1 in
  let w' := (upload_handler h r w).2 in
  fs w' !! envFilePath = fs w !! envFilePath ∧
  (persisted EnvBundle ∉ new_events w w') ∧
  (measured EnvBundle ∉ new_events w w') ∧
  (fs w !! podYamlPath = None → fs w !! envFilePath = None →
   write_goes_through h podYamlPath podContent w →
   tpm_fault h podYamlPath 13 = None →
   resp = WriteHeader StatusCreated ∧ fs w' !! podYamlPath = Some podContent) ∧
  (status resp = StatusCreated →
   fs w' !! podYamlPath = Some podContent ∧
   fs w' !! envFilePath = None ∧
   start_command w' = plain_podman).
Proof.
  intros Hm Hform Hpod Henv resp w'. subst resp w'.
  destruct (upload_handler h r w) as [resp w'] eqn:E. cbn [fst snd].
  pose proof E as Hout. apply upload_handler_outcome in Hout.
  assert (Hkeep : fs w' !! envFilePath = fs w !! envFilePath ∧
                  (persisted EnvBundle ∉ new_events w w') ∧
                  (measured EnvBundle ∉ new_events w w') ∧
                  (status resp = StatusCreated →
                   fs w !! envFilePath = None ∧
                   fs w' !! podYamlPath = Some podContent)).
  { destruct Hout as [resp Hne | form' pc ec resp w' _ Hform' Hpod' Hnopod Henv' Hp].
    { unfold new_events. rewrite drop_all.
      split; [done |]. split; [apply not_elem_of_nil |].
      split; [apply not_elem_of_nil | done]. }
    assert (form' = form) as -> by congruence.
    assert (pc = podContent) as -> by congruence.
    assert (ec = [] ∧ fs w !! envFilePath = None) as [-> Hnoenv].
    { destruct Henv' as [[He _]|[He Hno]]; [congruence |].
      split; [congruence | done]. }
    destruct Hp as [e|e Ht|Hec Ht|e Hec Ht|e Hec Ht Ht2|Hec Ht Ht2]; try done;
      cbn [fs]; unfold after_spec.
    - unfold new_events. rewrite drop_all.
      split; [done |]. split; [apply not_elem_of_nil |].
      split; [apply not_elem_of_nil | done].
    - rewrite lookup_insert_ne by done. erewrite new_events_app by reflexivity.
      split; [done |]. split; [intros Hin; no_such_event Hin |].
      split; [intros Hin; no_such_event Hin | done].
    - rewrite lookup_insert_ne by done. erewrite new_events_app by reflexivity.
      split; [done |]. split; [intros Hin; no_such_event Hin |].
      split; [intros Hin; no_such_event Hin |].
      intros _. by rewrite lookup_insert_eq. }
  destruct Hkeep as (Hfs & Hnop & Hnom & Hcreated).
  split; [exact Hfs |]. split; [exact Hnop |]. split; [exact Hnom |]. split.
  - intros Hnopod Hnoenv Hgo Htpm.
    revert E. unfold upload_handler, FormFile, upload_persist.
    rewrite Hm, String.eqb_refl, Hform, Hpod, Henv. cbn [negb ReadAll].
    apply fileExists_false in Hnopod, Hnoenv. rewrite Hnopod, Hnoenv.
    pose proof (atomicWriteFile_succeeds _ _ _ _ Hgo) as Hok.
    destruct (atomicWriteFile h podYamlPath podContent w) as [err w1] eqn:Ew.
    cbn [fst] in Hok. subst err. apply atomicWriteFile_ok in Ew as [_ ->].
    unfold measureIntoPCR. rewrite Htpm.
    cbn [length Nat.ltb Nat.leb]. intros [= <- <-]. split; [done |].
    cbn [emit fs]. by rewrite lookup_insert_eq.
  - intros Hst. destruct (Hcreated Hst) as [Hnoenv Hspec].
    split; [exact Hspec |]. split; [by rewrite Hfs |].
    unfold start_command, plain_podman.
    assert (Hno : fileExists envFilePath w' = false).
    { apply fileExists_false. by rewrite Hfs. }
    by rewrite Hno.
Qed.

Lemma empty_env_part_dropped_witness :
  (upload_handler good_host spec_empty_env_request empty_world).1
    = WriteHeader StatusCreated ∧
  fs (upload_handler good_host spec_empty_env_request empty_world).2 !! envFilePath
    = None ∧
  start_command (upload_handler good_host spec_empty_env_request empty_world).2
    = plain_podman.
Proof.
  destruct (empty_env_part_dropped good_host spec_empty_env_request empty_world
              (<[ "env" := PartData [] ]>
                 {[ "pod.yaml" := PartData (bytes_of "spec-v1") ]})
              (bytes_of "spec-v1"))
    as (_ & _ & _ & Hfresh & Hcreated).
  - reflexivity.
  - reflexivity.
  - vm_compute. reflexivity.
  - vm_compute. reflexivity.
  - destruct Hfresh as [Hresp _]; try reflexivity.
    { repeat split; reflexivity. }
    split; [exact Hresp |].
    destruct Hcreated as (_ & Hnoenv & Hcmd); [by rewrite Hresp |].
    by split.
Defined.

(** ** More on [atomicWriteFile] *)

(** X1. Write fidelity: when [atomicWriteFile] returns nil, the final
    location holds exactly the data passed in, whether or not a file
    was there before, the temporary file is gone, every other path
    holds what it held, and the call has left one rename in the
    trace. *)
Theorem atomicWriteFile_write_fidelity h filename data w w' :
  atomicWriteFile h filename data w = (None, w') →
  fs w' !! filename = Some data ∧
  fs w' !! tmp_of filename = None ∧
  (∀ p, p ≠ filename → fs w' !! p = fs w !! p) ∧
  new_events w w' = [EvRename (tmp_of filename) filename] ∧
  shutdownCh w' = shutdownCh w.
Proof.
  intros E. apply atomicWriteFile_ok in E as [Htmp ->]. cbn [fs shutdownCh].
  split; [by rewrite lookup_insert_eq |].
  split; [by rewrite lookup_insert_ne by (apply not_eq_sym, tmp_of_ne) |].
  split; [intros p Hp; by rewrite lookup_insert_ne |].
  split; [by erewrite new_events_app by reflexivity | done].
Qed.

Lemma atomicWriteFile_write_fidelity_witness :
  let w' := (atomicWriteFile good_host podYamlPath (bytes_of "spec-v2")
               spec_v1_world).2 in
  fs w' !! podYamlPath = Some (bytes_of "spec-v2") ∧
  fs w' !! tmp_of podYamlPath = None ∧
  (∀ p, p ≠ podYamlPath → fs w' !! p = fs spec_v1_world !! p) ∧
  new_events spec_v1_world w' = [EvRename (tmp_of podYamlPath) podYamlPath] ∧
  shutdownCh w' = shutdownCh spec_v1_world.
Proof.
  apply (atomicWriteFile_write_fidelity good_host podYamlPath
           (bytes_of "spec-v2") spec_v1_world).
  vm_compute. reflexivity.
Defined.

(** X2. [atomicWriteFile] returns nil exactly when the temporary file
    could be created (no fault on open and no file of that name yet)
    and neither the write, the sync nor the rename fails. *)
Theorem atomicWriteFile_succeeds_iff h filename data w :
  (atomicWriteFile h filename data w).1 = None ↔
  write_goes_through h filename data w.
Proof.
  split; [| apply atomicWriteFile_succeeds].
  unfold write_goes_through, atomicWriteFile, os_OpenFile_excl, f_Write,
    f_Sync, os_Rename.
  fold (tmp_of filename).
  destruct (open_fault h (tmp_of filename)); [discriminate |].
  destruct (fs w !! tmp_of filename); [discriminate |].
  destruct (write_fault h (tmp_of filename) data) as [[n e]|]; [discriminate |].
  destruct (sync_fault h (tmp_of filename)); [discriminate |].
  destruct (rename_fault h (tmp_of filename) filename); [discriminate |].
  done.
Qed.

(** X3. Nothing of a write in progress shows at the final location: in
    the worlds after the open, after the write (complete or cut short)
    and after the sync of [atomicWriteFile], the existence check on the
    final path answers what it answered before the call. *)
Theorem atomicWriteFile_invisible_before_rename h filename data w w1 w2 w3 e1 e2 e3 :
  os_OpenFile_excl h (tmp_of filename) w = (e1, w1) →
  f_Write h (tmp_of filename) data w1 = (e2, w2) →
  f_Sync h (tmp_of filename) w2 = (e3, w3) →
  fileExists filename w1 = fileExists filename w ∧
  fileExists filename w2 = fileExists filename w ∧
  fileExists filename w3 = fileExists filename w.
Proof.
  intros H1 H2 H3.
  destruct (atomicWriteFile_prefix_invisible h filename data w w1 w2 w3 e1 e2 e3
              H1 H2 H3 filename) as (E1 & E2 & E3).
  { apply not_eq_sym, tmp_of_ne. }
  unfold fileExists. by rewrite E1, E2, E3.
Qed.

Lemma atomicWriteFile_invisible_before_rename_witness :
  let o := os_OpenFile_excl short_write_host (tmp_of podYamlPath) empty_world in
  let wr := f_Write short_write_host (tmp_of podYamlPath) (bytes_of "spec-v1") o.2 in
  let sy := f_Sync short_write_host (tmp_of podYamlPath) wr.2 in
  fs wr.2 !! tmp_of podYamlPath = Some (bytes_of "spe") ∧
  fileExists podYamlPath o.2 = fileExists podYamlPath empty_world ∧
  fileExists podYamlPath wr.2 = fileExists podYamlPath empty_world ∧
  fileExists podYamlPath sy.2 = fileExists podYamlPath empty_world.
Proof.
  intros o wr sy. split; [vm_compute; reflexivity |].
  apply (atomicWriteFile_invisible_before_rename short_write_host podYamlPath
           (bytes_of "spec-v1") empty_world o.2 wr.2 sy.2 o.1 wr.1 sy.1).
  - subst o. apply surjective_pairing.
  - subst wr. apply surjective_pairing.
  - subst sy. apply surjective_pairing.
Defined.

(** ** More on the /upload handler *)

(** X4. A temporary file left behind blocks provisioning: when
    /tmp/pod.yaml.tmp exists, an upload that has passed every check is
    answered InternalError ("failed to create temp file"), whatever
    the host, and leaves the world as it is, stale file included; the
    handler never removes it, so every later attempt ends the same
    way. *)
Theorem stale_temp_blocks_provisioning h r w form podContent :
  r_method r = MethodPost →
  r_multipart r = Some form →
  form !! "pod.yaml" = Some (PartData podContent) →
  form !! "env" = None ∨
    (∃ envContent, form !! "env" = Some (PartData envContent)) ∧
    fs w !! envFilePath = None →
  fs w !! podYamlPath = None →
  is_Some (fs w !! tmp_of podYamlPath) →
  ∃ e, upload_handler h r w =
         (http_Error ("Failed to write pod.yaml: failed to create temp file: " +:+ e)
            StatusInternalServerError, w) ∧
       (open_fault h (tmp_of podYamlPath) = None →
        e = "open /tmp/pod.yaml.tmp: file exists").
Proof.
  intros Hm Hform Hpod Henv Hnopod [stale Hstale].
  assert (Hw : ∃ e, ∀ ec, upload_persist h podContent ec w =
      (http_Error ("Failed to write pod.yaml: failed to create temp file: " +:+ e)
         StatusInternalServerError, w) ∧
      (open_fault h (tmp_of podYamlPath) = None →
       e = "open /tmp/pod.yaml.tmp: file exists")).
  { unfold upload_persist, atomicWriteFile, os_OpenFile_excl.
    fold (tmp_of podYamlPath).
    destruct (open_fault h (tmp_of podYamlPath)) as [e|].
    - exists e. intros ec. split; [reflexivity | done].
    - rewrite Hstale. eexists. intros ec. split; reflexivity. }
  destruct Hw as [e He]. exists e.
  unfold upload_handler, FormFile.
  rewrite Hm, String.eqb_refl, Hform, Hpod. cbn [negb ReadAll].
  apply fileExists_false in Hnopod. rewrite Hnopod.
  destruct Henv as [-> | [[ec ->] Hnoenv]].
  - apply He.
  - apply fileExists_false in Hnoenv. rewrite Hnoenv. cbn [ReadAll]. apply He.
Qed.

Lemma stale_temp_blocks_provisioning_witness :
  upload_handler good_host spec_v1_request stale_tmp_world =
    (http_Error ("Failed to write pod.yaml: failed to create temp file: "
                 +:+ "open /tmp/pod.yaml.tmp: file exists")
       StatusInternalServerError, stale_tmp_world).
Proof.
  destruct (stale_temp_blocks_provisioning good_host spec_v1_request
              stale_tmp_world {[ "pod.yaml" := PartData (bytes_of "spec-v1") ]}
              (bytes_of "spec-v1")) as (e & -> & He).
  - reflexivity.
  - reflexivity.
  - reflexivity.
  - left. reflexivity.
  - reflexivity.
  - vm_compute. by eexists.
  - by rewrite He.
Defined.

(** X5. The upload handler writes only after every check has passed.
    Its answer is one of 201, 400, 405, 409 and 500; with any answer
    but 201 and 500 the world is untouched; and if the world has
    changed, the request was a POST with a parsable form and a readable
    pod.yaml part, no Spec was on disk, and an env part, if sent, was
    readable with no EnvBundle on disk. *)
Theorem upload_writes_only_after_all_checks h r w resp w' :
  upload_handler h r w = (resp, w') →
  (status resp = StatusCreated ∨ status resp = StatusBadRequest ∨
   status resp = StatusMethodNotAllowed ∨ status resp = StatusConflict ∨
   status resp = StatusInternalServerError) ∧
  (status resp ≠ StatusCreated → status resp ≠ StatusInternalServerError →
   w' = w) ∧
  (w' ≠ w →
   r_method r = MethodPost ∧
   ∃ form podContent,
     r_multipart r = Some form ∧
     form !! "pod.yaml" = Some (PartData podContent) ∧
     fs w !! podYamlPath = None ∧
     (form !! "env" = None ∨
      (∃ envContent, form !! "env" = Some (PartData envContent)) ∧
      fs w !! envFilePath = None)).
Proof.
  intros E. split; [| split].
  - revert E. unfold upload_handler.
    destruct (negb _); [intros [= <- _]; auto |].
    destruct (r_multipart r) as [form|]; [| intros [= <- _]; auto].
    destruct (FormFile form "pod.yaml") as [podFile|]; [| intros [= <- _]; auto].
    destruct (fileExists podYamlPath w); [intros [= <- _]; auto |].
    destruct (ReadAll podFile) as [pc|]; [| intros [= <- _]; auto 6].
    assert (Hp : ∀ ec resp w', upload_persist h pc ec w = (resp, w') →
      status resp = StatusCreated ∨ status resp = StatusInternalServerError).
    { intros ec resp0 w0 Hp. apply upload_persist_outcome in Hp.
      destruct Hp; auto. }
    destruct (FormFile form "env") as [envFile|].
    + destruct (fileExists envFilePath w); [intros [= <- _]; auto 6 |].
      destruct (ReadAll envFile) as [ec|]; [| intros [= <- _]; auto 6].
      intros Hp'. destruct (Hp _ _ _ Hp'); auto 6.
    + intros Hp'. destruct (Hp _ _ _ Hp'); auto 6.
  - intros Hn1 Hn2. apply upload_handler_outcome in E.
    destruct E as [| ? ? ? ? ? _ _ _ _ _ Hout]; [done |].
    destruct Hout; done.
  - intros Hchanged. apply upload_handler_outcome in E.
    destruct E as [| form pc ec resp w' Hm Hform Hpod Hnopod Henv Hout]; [done |].
    split; [done |]. exists form, pc. repeat split; try done.
    destruct Henv as [[Hn _]|[Hs Hnoenv]]; [by left | right].
    split; [by eexists | done].
Qed.

Lemma upload_writes_only_after_all_checks_witness :
  r_method spec_v1_request = MethodPost ∧
  ∃ form podContent,
    r_multipart spec_v1_request = Some form ∧
    form !! "pod.yaml" = Some (PartData podContent) ∧
    fs empty_world !! podYamlPath = None ∧
    (form !! "env" = None ∨
     (∃ envContent, form !! "env" = Some (PartData envContent)) ∧
     fs empty_world !! envFilePath = None).
Proof.
  destruct (upload_writes_only_after_all_checks good_host spec_v1_request
              empty_world
              (upload_handler good_host spec_v1_request empty_world).1
              (upload_handler good_host spec_v1_request empty_world).2)
    as (_ & _ & Hchanged).
  - symmetry. apply surjective_pairing.
  - apply Hchanged. vm_compute. discriminate.
Defined.



(** X7. The upload handler neither runs the engine nor signals
    shutdown: it leaves the channel as it is, and every event it adds
    to the trace is the rename or the register extension of one of the
    two artifacts. *)
Theorem upload_only_provisions h r w :
  shutdownCh (upload_handler h r w).2 = shutdownCh w ∧
  ∀ e, e ∈ new_events w (upload_handler h r w).2 → provisioning_event e.
Proof.
  destruct (upload_handler h r w) as [resp w'] eqn:E. cbn [snd].
  apply upload_handler_outcome in E.
  destruct E as [| ? ? ? ? ? _ _ _ _ _ Hout].
  { split; [done |]. intros e He. unfold new_events in He.
    rewrite drop_all in He. by apply elem_of_nil in He. }
  assert (Hall : ∀ evs, Forall provisioning_event evs →
            ∀ e, e ∈ evs → provisioning_event e).
  { intros evs Hf e He. by eapply Forall_forall in Hf. }
  assert (HpS : provisioning_event (persisted Spec)) by (exists Spec; by left).
  assert (HmS : provisioning_event (measured Spec)) by (exists Spec; by right).
  assert (HpE : provisioning_event (persisted EnvBundle))
    by (exists EnvBundle; by left).
  assert (HmE : provisioning_event (measured EnvBundle))
    by (exists EnvBundle; by right).
  destruct Hout; (split; [done |]);
    try (erewrite new_events_app by reflexivity; apply Hall;
         repeat constructor; done).
  intros ev Hev. unfold new_events in Hev.
  rewrite drop_all in Hev. by apply elem_of_nil in Hev.
Qed.

(** X8. Once the Spec is on disk the upload handler is without effect:
    whatever the host and the request, it leaves the world as it is and
    does not answer Created.  An EnvBundle that did not come with the
    Spec can therefore not be added by a later upload. *)
Theorem upload_is_noop_once_spec_present h r w :
  is_Some (fs w !! podYamlPath) →
  (upload_handler h r w).2 = w ∧
  status (upload_handler h r w).1 ≠ StatusCreated.
Proof.
  intros [b Hb].
  destruct (upload_handler h r w) as [resp w'] eqn:E. cbn [fst snd].
  apply upload_handler_outcome in E.
  destruct E as [| ? ? ? ? ? _ _ _ Hnopod _ _]; [done | congruence].
Qed.

Lemma upload_is_noop_once_spec_present_witness :
  (upload_handler good_host spec_env_request spec_v1_world).2 = spec_v1_world ∧
  status (upload_handler good_host spec_env_request spec_v1_world).1
    ≠ StatusCreated.
Proof.
  apply (upload_is_noop_once_spec_present good_host spec_env_request spec_v1_world).
  vm_compute. by eexists.
Defined.

(** ** More on the /start handler *)

(** The command follows the existence of the environment file. *)
Lemma start_command_cases w :
  (is_Some (fs w !! envFilePath) → start_command w = sh_podman) ∧
  (fs w !! envFilePath = None → start_command w = plain_podman).
Proof.
  unfold start_command. split.
  - intros He. apply fileExists_true in He. by rewrite He.
  - intros He. apply fileExists_false in He. by rewrite He.
Qed.

(** X9. Upload then Launch, with an environment: after an upload that
    answered Created and carried an env part of at least one byte, a
    Launch on a host with podman runs
    [sh -c ". /tmp/env && podman play kube /tmp/pod.yaml"] as its first
    effect, and is never answered NotFound. *)
Theorem launch_after_upload_sources_env h r w resp w' form envContent h2 r2 :
  upload_handler h r w = (resp, w') →
  status resp = StatusCreated →
  r_multipart r = Some form →
  form !! "env" = Some (PartData envContent) →
  envContent ≠ [] →
  r_method r2 = MethodPost →
  look_path h2 "podman" = None →
  start_command w' = sh_podman ∧
  head (new_events w' (start_handler h2 r2 w').2) = Some (EvExec sh_podman) ∧
  outcome_status (start_handler h2 r2 w').1 ≠ Some StatusNotFound.
Proof.
  intros E Hst Hform Henv Hne Hm2 Hlook.
  apply upload_handler_outcome in E.
  destruct E as [| form' pc ec resp w' _ Hform' Hpod _ Henv' Hout]; [done |].
  assert (form' = form) as -> by congruence.
  assert (ec = envContent) as ->.
  { destruct Henv' as [[Hn _]|[Hs _]]; congruence. }
  assert (Hfiles : fs w' !! podYamlPath = Some pc ∧
                   fs w' !! envFilePath = Some envContent).
  { destruct Hout; try discriminate Hst; try done.
    cbn [fs]. unfold after_both.
    by rewrite lookup_insert_eq, lookup_insert_ne, lookup_insert_eq. }
  destruct Hfiles as [Hp He].
  assert (Hcmd : start_command w' = sh_podman).
  { apply start_command_cases. by eexists. }
  split; [exact Hcmd |].
  rewrite start_with_spec by (done || by eexists).
  rewrite Hlook, Hcmd.
  destruct (run_err _); [| destruct (shutdownCh w')]; cbn [fst snd];
    (split; [by erewrite new_events_app by reflexivity | discriminate]).
Qed.

Lemma launch_after_upload_sources_env_witness :
  let w' := (upload_handler good_host spec_env_request empty_world).2 in
  start_command w' = sh_podman ∧
  head (new_events w' (start_handler good_host launch_request w').2)
    = Some (EvExec sh_podman) ∧
  outcome_status (start_handler good_host launch_request w').1
    ≠ Some StatusNotFound.
Proof.
  apply (launch_after_upload_sources_env good_host spec_env_request empty_world
           (upload_handler good_host spec_env_request empty_world).1
           (upload_handler good_host spec_env_request empty_world).2
           (<[ "env" := PartData (bytes_of "TOKEN=1") ]>
              {[ "pod.yaml" := PartData (bytes_of "spec-v1") ]})
           (bytes_of "TOKEN=1")).
  - symmetry. apply surjective_pairing.
  - vm_compute. reflexivity.
  - reflexivity.
  - vm_compute. reflexivity.
  - vm_compute. discriminate.
  - reflexivity.
  - reflexivity.
Defined.

(** X10. The /start handler never writes a file and never measures:
    it leaves the file system as it is, and what it adds to the trace
    is nothing, one run of the prepared command, or that run followed by
    the closing of the channel.  The engine is run at most once per
    call, and only when podman has been found. *)
Theorem launch_never_writes h r w :
  fs (start_handler h r w).2 = fs w ∧
  (new_events w (start_handler h r w).2 = [] ∨
   (look_path h "podman" = None ∧
    (new_events w (start_handler h r w).2 = [EvExec (start_command w)] ∨
     new_events w (start_handler h r w).2 =
       [EvExec (start_command w); EvCloseShutdown]))).
Proof.
  assert (Hnil : new_events w w = []).
  { unfold new_events. by rewrite drop_all. }
  unfold start_handler, close_shutdownCh.
  destruct (negb _); [by split; [| left] |].
  destruct (negb _); [by split; [| left] |].
  destruct (look_path h "podman"); [by split; [| left] |].
  destruct (run_err _).
  { split; [done |]. right. split; [done |]. left.
    by erewrite new_events_app by reflexivity. }
  cbn [emit shutdownCh fs trace].
  destruct (shutdownCh w).
  - split; [done |]. right. split; [done |]. left.
    by erewrite new_events_app by reflexivity.
  - split; [done |]. right. split; [done |]. right.
    apply new_events_app. cbn [emit trace fs shutdownCh snd].
    by rewrite <- app_assoc.
Qed.

(** X11. The /start handler panics in exactly one situation: a POST
    with the Spec on disk, podman found and the engine run successful,
    while the shutdown channel is already closed (a Launch has
    succeeded before); the panic is the second [close(shutdownCh)]. *)
Theorem start_handler_panics_iff h r w :
  (∃ msg, (start_handler h r w).1 = Panicked msg) ↔
  r_method r = MethodPost ∧
  is_Some (fs w !! podYamlPath) ∧
  look_path h "podman" = None ∧
  run_err (run_cmd h (start_command w)) = None ∧
  shutdownCh w = true.
Proof.
  split.
  - intros [msg Hp].
    destruct (String.eqb_spec (r_method r) MethodPost) as [Hm|Hm].
    2: { unfold start_handler in Hp. apply String.eqb_neq in Hm.
         rewrite Hm in Hp. discriminate Hp. }
    destruct (fs w !! podYamlPath) as [b|] eqn:Hpod.
    2: { rewrite start_missing_spec in Hp by done. discriminate Hp. }
    rewrite start_with_spec in Hp by (done || by eexists).
    destruct (look_path h "podman"); [discriminate Hp |].
    destruct (run_err _); [discriminate Hp |].
    destruct (shutdownCh w); [| discriminate Hp].
    repeat split; try done; by eexists.
  - intros (Hm & Hpod & Hlook & Hrun & Hsh).
    rewrite start_with_spec by done. rewrite Hlook, Hrun, Hsh. by eexists.
Qed.

(** ** More on the running process *)

(** Only a Launch answered OK closes the channel. *)
Lemma dispatch_signals path h r w :
  shutdownCh w = false → shutdownCh (dispatch path h r w).2 = true →
  (dispatch path h r w).1 = Responded (WriteHeader StatusOK).
Proof.
  intros Hopen. unfold dispatch.
  destruct (String.eqb path "/upload").
  { pose proof (upload_handler_shutdownCh h r w) as Hu.
    destruct (upload_handler h r w) as [resp w']. cbn [fst snd] in *. congruence. }
  destruct (String.eqb path "/start"); [| cbn [snd]; congruence].
  unfold start_handler, close_shutdownCh.
  destruct (negb _); [cbn [snd]; congruence |].
  destruct (negb _); [cbn [snd]; congruence |].
  destruct (look_path h "podman"); [cbn [snd]; congruence |].
  destruct (run_err _); [cbn [snd emit shutdownCh]; congruence |].
  cbn [emit shutdownCh]. by rewrite Hopen.
Qed.

Lemma run_signals sched s :
  shutdownCh (world (run sched s).2) = true →
  shutdownCh (world s) = true ∨
  Responded (WriteHeader StatusOK) ∈ (run sched s).1.
Proof.
  revert s. induction sched as [|a sched IH]; intros s; cbn [run].
  { by left. }
  destruct (act a s) as [o s1] eqn:Ea.
  specialize (IH s1). destruct (run sched s1) as [os s2]. cbn [fst snd] in *.
  intros Hsh. destruct (IH Hsh) as [Hs1 | Hin].
  2: { right. destruct o; [by apply list_elem_of_further | done]. }
  destruct (shutdownCh (world s)) eqn:Hs; [by left | right].
  destruct a as [path h r| | |]; cbn [act] in Ea.
  - destruct (serving s); [| injection Ea as _ <-; congruence].
    pose proof (dispatch_signals path h r (world s) Hs) as Hd.
    destruct (dispatch path h r (world s)) as [o' w']. cbn [fst snd] in Hd.
    injection Ea as <- <-. cbn [set_world world] in Hs1.
    rewrite (Hd Hs1). apply list_elem_of_here.
  - injection Ea as _ <-. exfalso. revert Hs1. unfold watcher_step.
    destruct (watcher s); rewrite ?Hs; cbn [world]; congruence.
  - injection Ea as _ <-. exfalso. revert Hs1. unfold main_step.
    destruct (main_pc s), (server_closed s), (Nat.eqb (wg s) 0);
      cbn [world]; congruence.
  - exfalso. destruct (main_pc s), (server_closed s);
      injection Ea as _ <-; cbn [world] in Hs1; congruence.
Qed.

(** X12. The process shuts down only after a successful Launch: in
    every run from the start of [main], if the listener has been closed
    or [main] has returned, one of the requests of the run was answered
    with the OK of /start. *)
Theorem shutdown_only_after_launch_ok w sched :
  server_closed (run sched (boot w)).2 = true ∨
    main_pc (run sched (boot w)).2 = MExit →
  Responded (WriteHeader StatusOK) ∈ (run sched (boot w)).1.
Proof.
  intros Hdown.
  pose proof (Inv_run sched (boot w) (Inv_boot w)) as [I1 I2 I3 I4 I5].
  assert (Hclosed : server_closed (run sched (boot w)).2 = true).
  { destruct Hdown as [|Hexit]; [done |]. apply I4. by right. }
  assert (Hsh : shutdownCh (world (run sched (boot w)).2) = true).
  { destruct (shutdownCh (world (run sched (boot w)).2)) eqn:Hs; [done |].
    specialize (I1 eq_refl). apply I2 in Hclosed. rewrite I1 in Hclosed.
    by destruct Hclosed. }
  destruct (run_signals sched (boot w) Hsh) as [Hboot | Hin]; [| done].
  discriminate Hboot.
Qed.

Lemma shutdown_only_after_launch_ok_witness :
  Responded (WriteHeader StatusOK) ∈
    (run [ARequest "/start" good_host launch_request; AWatcher; AWatcher]
         (boot spec_v1_world)).1.
Proof.
  apply (shutdown_only_after_launch_ok spec_v1_world
           [ARequest "/start" good_host launch_request; AWatcher; AWatcher]).
  left. vm_compute. reflexivity.
Defined.

Lemma act_not_fatal a s :
  is_listen_fail a = false → main_pc s ≠ MFatal → main_pc (act a s).2 ≠ MFatal.
Proof.
  intros Ha Hm. destruct a as [path h r| | |]; cbn [act]; [| | | done].
  - destruct (serving s); [| done]. by destruct (dispatch path h r (world s)).
  - unfold watcher_step. by destruct (watcher s), (shutdownCh (world s)).
  - unfold main_step.
    destruct (main_pc s) eqn:Hpc, (server_closed s), (Nat.eqb (wg s) 0);
      cbn [snd main_pc]; congruence.
Qed.

Lemma run_not_fatal sched s :
  Forall (λ a, is_listen_fail a = false) sched →
  main_pc s ≠ MFatal → main_pc (run sched s).2 ≠ MFatal.
Proof.
  revert s. induction sched as [|a sched IH]; intros s Hall Hm; cbn [run]; [done |].
  inversion Hall as [|? ? Ha Hrest]; subst.
  pose proof (act_not_fatal a s Ha Hm) as H1. destruct (act a s) as [o s1].
  specialize (IH s1 Hrest H1). by destruct (run sched s1).
Qed.

(** X13. After the signal [main] comes to its end: from a state of the
    process with the channel closed and [main] not stopped by
    [log.Fatalf], any schedule without listener errors that lets the
    shutdown goroutine take its three steps, followed by two steps of
    [main], ends with [main] returned, the listener closed and the wait
    group at zero. *)
Theorem main_returns_after_signal s sched :
  reachable s →
  shutdownCh (world s) = true →
  main_pc s ≠ MFatal →
  Forall (λ a, is_listen_fail a = false) sched →
  (3 ≤ length (filter (λ a, is_watcher a = true) sched))%nat →
  let s' := (run (sched ++ [AMain; AMain]) s).2 in
  main_pc s' = MExit ∧ server_closed s' = true ∧ wg s' = 0%nat ∧
  watcher s' = WDone.
Proof.
  intros Hreach Hsh Hm Hall Hthree. apply reachable_Inv in Hreach.
  cbn zeta. rewrite run_app. cbn [snd].
  pose proof (Inv_run sched s Hreach) as [I1 I2 I3 I4 I5].
  pose proof (run_watcher_rank sched s Hsh) as Hrank.
  pose proof (run_not_fatal sched s Hall Hm) as Hnf.
  set (s2 := (run sched s).2) in *.
  assert (Hdone : watcher s2 = WDone).
  { destruct (watcher s2); cbn [watcher_rank] in Hrank; [lia | lia | lia | done]. }
  assert (Hclosed : server_closed s2 = true) by (apply I2; by right).
  rewrite Hdone in I3.
  destruct s2 as [w2 c g p m]. cbn [server_closed wg watcher main_pc] in *.
  subst c g p. cbn [run act main_step].
  destruct m; cbn [main_step server_closed wg watcher main_pc Nat.eqb snd]; done.
Qed.

Lemma main_returns_after_signal_witness :
  main_pc (run ([AWatcher; ARequest "/upload" good_host spec_v2_request;
                 AWatcher; AMain; AWatcher] ++ [AMain; AMain])
             launched_server).2 = MExit.
Proof.
  apply (main_returns_after_signal launched_server
           [AWatcher; ARequest "/upload" good_host spec_v2_request;
            AWatcher; AMain; AWatcher]).
  - exists spec_v1_world, [ARequest "/start" good_host launch_request].
    reflexivity.
  - vm_compute. reflexivity.
  - vm_compute. discriminate.
  - repeat constructor.
  - vm_compute. apply le_n.
Defined.

(** ** Measured before use *)

Lemma upload_handler_all_measured h r w :
  placeholder_tpm h → all_measured w → all_measured (upload_handler h r w).2.
Proof.
  intros Htpm Hw.
  destruct (upload_handler h r w) as [resp w'] eqn:E. cbn [snd].
  apply upload_handler_outcome in E.
  destruct E as [| form pc ec resp w' _ _ _ _ Henv Hout]; [done |].
  assert (Hspec : ∀ tr sh,
    all_measured (mkWorld (after_spec pc w)
                    (trace w ++ [persisted Spec; measured Spec] ++ tr) sh)).
  { intros tr sh k Hk. cbn [fs trace] in *. rewrite elem_of_app.
    destruct k; cbn [kind_path] in Hk.
    - right. apply list_elem_of_further, list_elem_of_here.
    - left. apply (Hw EnvBundle). cbn [kind_path].
      unfold after_spec in Hk. by rewrite lookup_insert_ne in Hk. }
  destruct Hout as [e|e Ht|Hec Ht|e Hec Ht|e Hec Ht Ht2|Hec Ht Ht2].
  - done.
  - by rewrite Htpm in Ht.
  - apply (Hspec [] (shutdownCh w)).
  - apply (Hspec [] (shutdownCh w)).
  - by rewrite Htpm in Ht2.
  - intros k Hk. cbn [trace]. rewrite elem_of_app. right.
    destruct k.
    + apply list_elem_of_further, list_elem_of_here.
    + do 3 apply list_elem_of_further. apply list_elem_of_here.
Qed.

Lemma start_handler_appends h r w :
  fs (start_handler h r w).2 = fs w ∧
  ∃ evs, trace (start_handler h r w).2 = trace w ++ evs.
Proof.
  unfold start_handler, close_shutdownCh.
  destruct (negb _); [split; [done | exists []; by rewrite app_nil_r] |].
  destruct (negb _); [split; [done | exists []; by rewrite app_nil_r] |].
  destruct (look_path h "podman");
    [split; [done | exists []; by rewrite app_nil_r] |].
  destruct (run_err _); [split; [done | by eexists] |].
  cbn [emit shutdownCh fs trace].
  destruct (shutdownCh w); (split; [done |]); [by eexists |].
  cbn [emit trace snd]. rewrite <- app_assoc. by eexists.
Qed.

Lemma start_handler_all_measured h r w :
  all_measured w → all_measured (start_handler h r w).2.
Proof.
  intros Hw k Hk.
  destruct (start_handler_appends h r w) as [Hfs [evs Htr]].
  rewrite Hfs in Hk. rewrite Htr, elem_of_app. left. by apply Hw.
Qed.

Lemma act_all_measured a s :
  on_placeholder_tpm a → all_measured (world s) → all_measured (world (act a s).2).
Proof.
  intros Ha Hw. destruct a as [path h r| | |]; cbn [act].
  - destruct (serving s); [| done]. unfold dispatch.
    destruct (String.eqb path "/upload").
    { pose proof (upload_handler_all_measured h r (world s) Ha Hw) as Hu.
      by destruct (upload_handler h r (world s)). }
    destruct (String.eqb path "/start").
    { pose proof (start_handler_all_measured h r (world s) Hw) as Hs.
      by destruct (start_handler h r (world s)). }
    done.
  - unfold watcher_step. by destruct (watcher s), (shutdownCh (world s)).
  - unfold main_step.
    by destruct (main_pc s), (server_closed s), (Nat.eqb (wg s) 0).
  - by destruct (main_pc s), (server_closed s).
Qed.

(** X14. With the TPM of the source, which accepts every extension,
    the process never leaves an artifact on disk unmeasured: if every
    artifact present when [main] starts has its extension in the trace,
    the same holds after every run of requests, whatever their hosts do
    to the file system and the engine. *)
Theorem placeholder_tpm_keeps_all_measured w sched :
  all_measured w →
  Forall on_placeholder_tpm sched →
  all_measured (world (run sched (boot w)).2).
Proof.
  intros Hw Hall.
  assert (Hgen : ∀ s, all_measured (world s) →
                      all_measured (world (run sched s).2)).
  { induction sched as [|a sched IH]; intros s Hs; cbn [run]; [done |].
    inversion Hall as [|? ? Ha Hrest]; subst.
    pose proof (act_all_measured a s Ha Hs) as H1.
    destruct (act a s) as [o s1]. specialize (IH Hrest s1 H1).
    by destruct (run sched s1). }
  apply Hgen. exact Hw.
Qed.

Lemma placeholder_tpm_keeps_all_measured_witness :
  all_measured
    (world (run [ARequest "/upload" good_host spec_env_request;
                 ARequest "/start" failing_engine_host launch_request;
                 ARequest "/upload" sync_failing_host spec_v2_request]
              (boot empty_world)).2).
Proof.
  apply (placeholder_tpm_keeps_all_measured empty_world).
  - intros k [b Hb]. destruct k; discriminate Hb.
  - repeat constructor.
Defined.

(** X15. An environment file that is already on disk is used without
    having been measured: an upload without env part does not look at
    /tmp/env, so on a disk that holds one it can answer Created; it
    then leaves that file as it is and records no extension of register
    14, and a Launch on the result sources the file
    ([sh -c ". /tmp/env && podman play kube /tmp/pod.yaml"]). *)
Theorem unmeasured_env_file_is_sourced h r w form resp w' :
  upload_handler h r w = (resp, w') →
  status resp = StatusCreated →
  r_multipart r = Some form →
  form !! "env" = None →
  is_Some (fs w !! envFilePath) →
  fs w' !! envFilePath = fs w !! envFilePath ∧
  (measured EnvBundle ∉ new_events w w') ∧
  start_command w' = sh_podman ∧
  ∀ h2 r2, r_method r2 = MethodPost → look_path h2 "podman" = None →
    head (new_events w' (start_handler h2 r2 w').2) = Some (EvExec sh_podman).
Proof.
  intros E Hst Hform Henv Hstale.
  apply upload_handler_outcome in E.
  destruct E as [| form' pc ec resp w' _ Hform' Hpod _ Henv' Hout]; [done |].
  assert (form' = form) as -> by congruence.
  assert (ec = []) as ->.
  { destruct Henv' as [[_ ->]|[Hs _]]; [done | congruence]. }
  destruct Hout as [e|e Ht|Hec Ht|e Hec Ht|e Hec Ht Ht2|Hec Ht Ht2];
    try discriminate Hst; try done.
  cbn [fs]. unfold after_spec.
  assert (Hkeep : <[podYamlPath:=pc]> (fs w) !! envFilePath = fs w !! envFilePath)
    by by rewrite lookup_insert_ne.
  split; [exact Hkeep |].
  split.
  { erewrite new_events_app by reflexivity. intros Hin. no_such_event Hin. }
  set (w1 := mkWorld _ _ _).
  assert (Hcmd : start_command w1 = sh_podman).
  { apply start_command_cases. subst w1. cbn [fs]. by rewrite Hkeep. }
  split; [exact Hcmd |].
  intros h2 r2 Hm2 Hlook.
  rewrite start_with_spec; [| done |].
  2: { subst w1. cbn [fs]. rewrite lookup_insert_eq. by eexists. }
  rewrite Hlook, Hcmd.
  destruct (run_err _); [| destruct (shutdownCh w1)]; cbn [fst snd];
    by erewrite new_events_app by reflexivity.
Qed.

Lemma unmeasured_env_file_is_sourced_witness :
  let w' := (upload_handler good_host spec_v1_request stale_env_world).2 in
  fs w' !! envFilePath = fs stale_env_world !! envFilePath ∧
  (measured EnvBundle ∉ new_events stale_env_world w') ∧
  start_command w' = sh_podman ∧
  ∀ h2 r2, r_method r2 = MethodPost → look_path h2 "podman" = None →
    head (new_events w' (start_handler h2 r2 w').2) = Some (EvExec sh_podman).
Proof.
  apply (unmeasured_env_file_is_sourced good_host spec_v1_request stale_env_world
           {[ "pod.yaml" := PartData (bytes_of "spec-v1") ]}
           (upload_handler good_host spec_v1_request stale_env_world).1).
  - symmetry. apply surjective_pairing.
  - vm_compute. reflexivity.
  - reflexivity.
  - reflexivity.
  - vm_compute. by eexists.
Defined.

(** ** The scenarios of the specification *)

(** Upload of [spec-v1], then Launch with a working engine: Created,
    then OK; after the goroutine has closed the listener a further
    request is refused. *)
Lemma scenario_provision_then_launch :
  (run [ARequest "/upload" good_host spec_v1_request;
        ARequest "/start" good_host launch_request;
        AWatcher; AWatcher;
        ARequest "/upload" good_host spec_v2_request;
        AMain; AWatcher; AMain] (boot empty_world)).1 =
    [Responded (WriteHeader StatusCreated);
     Responded (WriteHeader StatusOK);
     Refused] ∧
  main_pc (run [ARequest "/upload" good_host spec_v1_request;
                ARequest "/start" good_host launch_request;
                AWatcher; AWatcher;
                ARequest "/upload" good_host spec_v2_request;
                AMain; AWatcher; AMain] (boot empty_world)).2 = MExit.
Proof. vm_compute. split; reflexivity. Qed.

(** Upload of a Spec twice: the second call meets Conflict and the
    file still holds the first upload. *)
Lemma scenario_second_upload_conflicts :
  let '(outs, s) :=
    run [ARequest "/upload" good_host spec_v1_request;
         ARequest "/upload" good_host spec_v2_request] (boot empty_world) in
  outcome_status <$> outs = [Some StatusCreated; Some StatusConflict] ∧
  fs (world s) !! podYamlPath = Some (bytes_of "spec-v1").
Proof. vm_compute. split; reflexivity. Qed.

(** Launch before any upload: NotFound.  Launch with the Spec in place
    and no podman on the host: InternalError, and a retry on a host
    with podman is answered OK. *)
Lemma scenario_launch_without_engine :
  (run [ARequest "/start" good_host launch_request;
        ARequest "/upload" good_host spec_v1_request;
        ARequest "/start" no_podman_host launch_request;
        AWatcher; AMain;
        ARequest "/start" good_host launch_request] (boot empty_world)).1 =
    [Responded (http_Error "pod.yaml not found" StatusNotFound);
     Responded (WriteHeader StatusCreated);
     Responded (http_Error "podman is not installed" StatusInternalServerError);
     Responded (WriteHeader StatusOK)].
Proof. vm_compute. reflexivity. Qed.
